(** * external_sort.py: a shallow embedding and its checked properties

    The development follows [src/external_sort.py] function by function.
    Python values are modelled as follows.

    - [str] is [string]; a character is a code point below 256.
    - A record (one parsed CSV row) is a [list string].
    - Exceptions are the constructors of [exn]; a Python call is a
      computation in the state-and-exception monad [M] over the file
      system [fs], so that the files written before an exception is raised
      stay written, as they do on disk.
    - The working directory holds ordinary files, addressed by the path
      the caller gives, and at most one workspace directory [./.tmp],
      whose entries are addressed as [./.tmp/<name>].
    - [max_size] is a rational: every finite float is one, and the product
      with 1048576 = 2^20 and the comparison with an integer length are
      exact on floats.

    Library behaviour the code relies on ([open], [csv], [heapq.merge],
    [list.sort], [multiprocessing.Pool], [hashlib.md5], [os]) is modelled
    in [Module Py] from the documented behaviour of CPython 3 on POSIX. *)

From Stdlib Require Import QArith Sorting.Sorted Sorting.Permutation.
From Stdlib Require Import DecimalString DecimalNat.
From stdpp Require Import gmap strings list.

Local Open Scope string_scope.
Local Open Scope Z_scope.

(* ===================================================================== *)
(** ** The Python runtime                                                 *)
(* ===================================================================== *)

Module Py.

(** The exceptions that the modelled calls can raise. *)
Inductive exn : Set :=
  | AttributeError    (* attribute access on None *)
  | IndexError        (* list index out of range *)
  | KeyError          (* missing dict key; never raised by this program *)
  | TypeError         (* calling an object that is not callable *)
  | ValueError        (* Pool(processes < 1) *)
  | FileNotFoundError
  | FileExistsError
  | OSError           (* rmdir of a directory that is not empty *)
  | CsvError.         (* csv.Error *)

Inductive result (A : Type) : Type :=
  | Ok (a : A)
  | Raise (e : exn).
Arguments Ok {A} a.
Arguments Raise {A} e.

#[global] Instance exn_eq_dec : EqDecision exn.
Proof. solve_decision. Defined.

#[global] Instance result_eq_dec {A} `{EqDecision A} : EqDecision (result A).
Proof. solve_decision. Defined.

(** *** Files *)

(** [files] are the files outside the workspace; [tmp] is the listing of
    [./.tmp] when that directory exists. *)
Record fs : Type := mkfs {
  files : gmap string string;
  tmp : option (gmap string string)
}.

Definition tmp_prefix : string := "./.tmp/".

(** [in_tmp p] is the entry name when [p] is spelled [./.tmp/<name>]. *)
Fixpoint strip_prefix (pre s : string) : option string :=
  match pre with
  | EmptyString => Some s
  | String a pre' =>
      match s with
      | String b s' => if Ascii.eqb a b then strip_prefix pre' s' else None
      | EmptyString => None
      end
  end.

Definition in_tmp (p : string) : option string := strip_prefix tmp_prefix p.

(** The monad: state is the file system, failure is a raised exception. *)
Definition M (A : Type) : Type := fs -> fs * result A.

Definition ret {A} (a : A) : M A := fun s => (s, Ok a).
Definition raise {A} (e : exn) : M A := fun s => (s, Raise e).
Definition bind {A B} (m : M A) (k : A -> M B) : M B :=
  fun s => match m s with
           | (s', Ok a) => k a s'
           | (s', Raise e) => (s', Raise e)
           end.
Definition lift {A} (r : result A) : M A := fun s => (s, r).

Declare Scope py_scope.
Delimit Scope py_scope with py.
Notation "x <- m ;; k" := (bind m (fun x => k))
  (at level 100, m at next level, right associativity) : py_scope.
Notation "m ;;; k" := (bind m (fun _ => k))
  (at level 100, right associativity) : py_scope.
Local Open Scope py_scope.

(** [for x in l: body x] threading an accumulator. *)
Fixpoint foldM {A B} (f : B -> A -> M B) (l : list A) (b : B) : M B :=
  match l with
  | [] => ret b
  | x :: l' => b' <- f b x ;; foldM f l' b'
  end.

Fixpoint forM_ {A} (f : A -> M unit) (l : list A) : M unit :=
  match l with
  | [] => ret tt
  | x :: l' => f x ;;; forM_ f l'
  end.

(** The content of the file at [p], as stored. *)
Definition fs_lookup (s : fs) (p : string) : option string :=
  match in_tmp p with
  | Some name => d ← tmp s; d !! name
  | None => files s !! p
  end.

(** Text-mode reading translates every line ending to a line feed
    ([open(p)] has [newline=None]). *)
Definition CR : Ascii.ascii := Ascii.ascii_of_nat 13.
Definition LF : Ascii.ascii := Ascii.ascii_of_nat 10.

Fixpoint universal_newlines (s : string) : string :=
  match s with
  | EmptyString => EmptyString
  | String c s' =>
      if Ascii.eqb c CR then
        match s' with
        | String c' s'' =>
            if Ascii.eqb c' LF then String LF (universal_newlines s'')
            else String LF (universal_newlines s')
        | EmptyString => String LF EmptyString
        end
      else String c (universal_newlines s')
  end.

(** [open(p)] followed by reading the whole text. *)
Definition read_text (p : string) : M string :=
  fun s => match fs_lookup s p with
           | Some c => (s, Ok (universal_newlines c))
           | None => (s, Raise FileNotFoundError)
           end.

(** [open(p, 'w')]: creates or truncates; the directory must exist. *)
Definition open_w (p : string) : M unit :=
  fun s => match in_tmp p with
           | Some name =>
               match tmp s with
               | Some d => (mkfs (files s) (Some (<[name := ""]> d)), Ok tt)
               | None => (s, Raise FileNotFoundError)
               end
           | None => (mkfs (<[p := ""]> (files s)) (tmp s), Ok tt)
           end.

(** [f.write(data)] on a file opened by [open_w]: appends. On POSIX the
    text layer writes line feeds and carriage returns unchanged. *)
Definition write (p : string) (data : string) : M unit :=
  fun s => match in_tmp p with
           | Some name =>
               match tmp s with
               | Some d =>
                   (mkfs (files s)
                         (Some (<[name := default "" (d !! name) +:+ data]> d)),
                    Ok tt)
               | None => (s, Raise FileNotFoundError)
               end
           | None =>
               (mkfs (<[p := default "" (files s !! p) +:+ data]> (files s))
                     (tmp s), Ok tt)
           end.

(** [os.makedirs('./.tmp')] *)
Definition makedirs_tmp : M unit :=
  fun s => match tmp s with
           | Some _ => (s, Raise FileExistsError)
           | None => (mkfs (files s) (Some ∅), Ok tt)
           end.

(** [os.remove(p)] *)
Definition remove (p : string) : M unit :=
  fun s => match fs_lookup s p with
           | None => (s, Raise FileNotFoundError)
           | Some _ =>
               match in_tmp p with
               | Some name => (mkfs (files s) (delete name <$> tmp s), Ok tt)
               | None => (mkfs (delete p (files s)) (tmp s), Ok tt)
               end
           end.

(** [os.rename(src, dst)]: one step; [dst] is replaced when it exists. *)
Definition rename (src dst : string) : M unit :=
  fun s => match fs_lookup s src with
           | None => (s, Raise FileNotFoundError)
           | Some c =>
               match in_tmp dst, tmp s with
               | Some _, None => (s, Raise FileNotFoundError)
               | _, _ => (remove src ;;; open_w dst ;;; write dst c) s
               end
           end.

(** [os.rmdir('./.tmp/')] *)
Definition rmdir_tmp : M unit :=
  fun s => match tmp s with
           | None => (s, Raise FileNotFoundError)
           | Some d =>
               match map_to_list d with
               | [] => (mkfs (files s) None, Ok tt)
               | _ :: _ => (s, Raise OSError)
               end
           end.

(** [os.listdir('./.tmp/')]. The order of the names is whatever the
    file system gives: [order] stands for it, and the properties below
    ask of it only that it permutes the names. *)
Definition listdir_tmp (order : list string -> list string) : M (list string) :=
  fun s => match tmp s with
           | None => (s, Raise FileNotFoundError)
           | Some d => (s, Ok (order (map_to_list d).*1))
           end.

(** *** Strings *)

(** [f.readline()] until it returns the empty string: the lines of the
    text, each with its line feed; the last one may lack it. *)
Fixpoint readlines (s : string) : list string :=
  match s with
  | EmptyString => []
  | String c s' =>
      if Ascii.eqb c LF then String c EmptyString :: readlines s'
      else match readlines s' with
           | [] => [String c EmptyString]
           | l :: ls => String c l :: ls
           end
  end.

(** Code points below 256 for which [str.isspace()] holds. *)
Definition isspace (c : Ascii.ascii) : bool :=
  let n := Ascii.nat_of_ascii c in
  ((9 <=? n)%nat && (n <=? 13)%nat) || ((28 <=? n)%nat && (n <=? 32)%nat)
  || (n =? 133)%nat || (n =? 160)%nat.

Fixpoint lstrip (s : string) : string :=
  match s with
  | String c s' => if isspace c then lstrip s' else s
  | EmptyString => EmptyString
  end.

Fixpoint rstrip (s : string) : string :=
  match s with
  | EmptyString => EmptyString
  | String c s' =>
      match rstrip s' with
      | EmptyString => if isspace c then EmptyString else String c EmptyString
      | r => String c r
      end
  end.

(** [s.strip()] *)
Definition strip (s : string) : string := rstrip (lstrip s).

(** [s.split(sep)] for a separator of one character. *)
Fixpoint split (sep : Ascii.ascii) (s : string) : list string :=
  match s with
  | EmptyString => [EmptyString]
  | String c s' =>
      if Ascii.eqb c sep then EmptyString :: split sep s'
      else match split sep s' with
           | f :: fs => String c f :: fs
           | [] => [String c EmptyString]
           end
  end.

(** [sep.join(l)] *)
Fixpoint join (sep : string) (l : list string) : string :=
  match l with
  | [] => EmptyString
  | [x] => x
  | x :: l' => x +:+ sep +:+ join sep l'
  end.

(** ['{0}'.format(n)] for a natural number. *)
Definition format_nat (n : nat) : string := NilEmpty.string_of_uint (Nat.to_uint n).

(** [l[i]] with Python's negative indices. *)
Definition index {A} (l : list A) (i : Z) : result A :=
  let n := Z.of_nat (length l) in
  let j := if i <? 0 then i + n else i in
  if (0 <=? j) && (j <? n) then
    match l !! Z.to_nat j with
    | Some x => Ok x
    | None => Raise IndexError
    end
  else Raise IndexError.

(** [[f x for x in l]], stopping at the first exception. *)
Fixpoint mapR {A B} (f : A -> result B) (l : list A) : result (list B) :=
  match l with
  | [] => Ok []
  | x :: l' =>
      match f x with
      | Raise e => Raise e
      | Ok y => match mapR f l' with
                | Raise e => Raise e
                | Ok ys => Ok (y :: ys)
                end
      end
  end.

(** *** Comparison of sort keys *)

(** A key is a list of [str]; [<] on lists compares the first differing
    elements, [str] by code points, and a strict prefix is smaller. *)
Definition key_compare (a b : list string) : comparison :=
  list_compare String.compare a b.

Definition key_lt (a b : list string) : bool :=
  match key_compare a b with Lt => true | _ => false end.

(** [a <= b], the order the output is checked against. *)
Definition key_le (a b : list string) : bool := negb (key_lt b a).

(** *** [list.sort(key=f)] *)

(** The keys are computed first, once per element and in list order; the
    sort then uses [<] on the keys only and is stable. The result of a
    stable sort does not depend on the algorithm: insertion from the right
    stands for CPython's. *)
Fixpoint insert_by_key {V} (x : list string * V) (l : list (list string * V))
  : list (list string * V) :=
  match l with
  | [] => [x]
  | y :: l' => if key_lt y.1 x.1 then y :: insert_by_key x l' else x :: l
  end.

Fixpoint stable_sort {V} (l : list (list string * V)) : list (list string * V) :=
  match l with
  | [] => []
  | x :: l' => insert_by_key x (stable_sort l')
  end.

Definition list_sort {V} (key : V -> result (list string)) (l : list V)
  : result (list V) :=
  match mapR key l with
  | Raise e => Raise e
  | Ok ks => Ok (stable_sort (zip ks l)).*2
  end.

(** *** The csv module, dialect [excel] *)

Definition row : Type := list string.

Definition QUOTE : Ascii.ascii := Ascii.ascii_of_nat 34.
Definition COMMA : Ascii.ascii := Ascii.ascii_of_nat 44.
Definition DOT : Ascii.ascii := Ascii.ascii_of_nat 46.

(** The states of the reader that the dialect can reach (no escape
    character is set). *)
Inductive parser_state : Set :=
  | START_RECORD | START_FIELD | IN_FIELD
  | IN_QUOTED_FIELD | QUOTE_IN_QUOTED_FIELD | EAT_CRNL.

Record reader : Type := mkreader {
  r_state : parser_state;
  r_field : string;
  r_fields : row
}.

Definition parse_reset : reader := mkreader START_RECORD "" [].

Definition parse_add_char (r : reader) (c : Ascii.ascii) (st : parser_state) : reader :=
  mkreader st (r_field r +:+ String c "") (r_fields r).

Definition parse_save_field (r : reader) (st : parser_state) : reader :=
  mkreader st "" (r_fields r ++ [r_field r])%list.

Definition set_state (r : reader) (st : parser_state) : reader :=
  mkreader st (r_field r) (r_fields r).

Definition is_newline (c : Ascii.ascii) : bool := Ascii.eqb c LF || Ascii.eqb c CR.

(** One step of the reader on a character of the line, or on the end of
    the line ([None]). [None] as a result is [csv.Error]. *)
Definition start_field (delim : Ascii.ascii) (r : reader) (c : option Ascii.ascii)
  : option reader :=
  match c with
  | None => Some (parse_save_field r START_RECORD)
  | Some c =>
      if is_newline c then Some (parse_save_field r EAT_CRNL)
      else if Ascii.eqb c QUOTE then Some (set_state r IN_QUOTED_FIELD)
      else if Ascii.eqb c delim then Some (parse_save_field r START_FIELD)
      else Some (parse_add_char r c IN_FIELD)
  end.

Definition parse_process_char (delim : Ascii.ascii) (r : reader)
  (c : option Ascii.ascii) : option reader :=
  match r_state r with
  | START_RECORD =>
      match c with
      | None => Some r
      | Some c' =>
          if is_newline c' then Some (set_state r EAT_CRNL)
          else start_field delim r c
      end
  | START_FIELD => start_field delim r c
  | IN_FIELD =>
      match c with
      | None => Some (parse_save_field r START_RECORD)
      | Some c =>
          if is_newline c then Some (parse_save_field r EAT_CRNL)
          else if Ascii.eqb c delim then Some (parse_save_field r START_FIELD)
          else Some (parse_add_char r c IN_FIELD)
      end
  | IN_QUOTED_FIELD =>
      match c with
      | None => Some r
      | Some c =>
          if Ascii.eqb c QUOTE then Some (set_state r QUOTE_IN_QUOTED_FIELD)
          else Some (parse_add_char r c IN_QUOTED_FIELD)
      end
  | QUOTE_IN_QUOTED_FIELD =>
      match c with
      | None => Some (parse_save_field r START_RECORD)
      | Some c =>
          if Ascii.eqb c QUOTE then Some (parse_add_char r c IN_QUOTED_FIELD)
          else if Ascii.eqb c delim then Some (parse_save_field r START_FIELD)
          else if is_newline c then Some (parse_save_field r EAT_CRNL)
          else Some (parse_add_char r c IN_FIELD)
      end
  | EAT_CRNL =>
      match c with
      | None => Some (set_state r START_RECORD)
      | Some c => if is_newline c then Some r else None
      end
  end.

Fixpoint parse_line (delim : Ascii.ascii) (r : reader) (line : string)
  : option reader :=
  match line with
  | EmptyString => parse_process_char delim r None
  | String c line' =>
      match parse_process_char delim r (Some c) with
      | Some r' => parse_line delim r' line'
      | None => None
      end
  end.

(** The rows the reader yields over the lines of a file, up to the first
    [csv.Error] if there is one. A record goes on to the next line while
    the reader is inside a quoted field; at the end of the input an
    unfinished record is yielded as it stands. *)
Fixpoint reader_rows (delim : Ascii.ascii) (r : reader) (lines : list string)
  : list row * bool :=
  match lines with
  | [] =>
      match r_field r, r_state r with
      | EmptyString, IN_QUOTED_FIELD | String _ _, _ =>
          ([(r_fields r ++ [r_field r])%list], true)
      | EmptyString, _ => ([], true)
      end
  | l :: ls =>
      match parse_line delim r l with
      | None => ([], false)
      | Some r' =>
          match r_state r' with
          | START_RECORD =>
              let (rows, ok) := reader_rows delim parse_reset ls in
              (r_fields r' :: rows, ok)
          | _ => reader_rows delim r' ls
          end
      end
  end.

(** [csv.reader(f, delimiter=delim)] over the text of an open file:
    [Some rows] when the whole file parses. *)
Definition csv_reader (delim : Ascii.ascii) (text : string) : option (list row) :=
  match reader_rows delim parse_reset (readlines text) with
  | (rows, true) => Some rows
  | (_, false) => None
  end.

(** [csv.writer(f, delimiter=delim).writerow(r)]: a field is quoted when
    it holds the delimiter, a quote or a line ending; quotes inside are
    doubled; a row made of one empty field is written as two quotes; the
    line ends with a carriage return and a line feed. *)
Fixpoint needs_quote (delim : Ascii.ascii) (f : string) : bool :=
  match f with
  | EmptyString => false
  | String c f' =>
      Ascii.eqb c delim || Ascii.eqb c QUOTE || is_newline c || needs_quote delim f'
  end.

Fixpoint double_quotes (f : string) : string :=
  match f with
  | EmptyString => EmptyString
  | String c f' =>
      if Ascii.eqb c QUOTE then String c (String c (double_quotes f'))
      else String c (double_quotes f')
  end.

Definition write_field (delim : Ascii.ascii) (f : string) : string :=
  if needs_quote delim f
  then String QUOTE (double_quotes f +:+ String QUOTE "")
  else f.

Definition lineterminator : string := String CR (String LF "").

Definition writerow (delim : Ascii.ascii) (r : row) : string :=
  match r with
  | [EmptyString] => String QUOTE (String QUOTE lineterminator)
  | _ => join (String delim "") (write_field delim <$> r) +:+ lineterminator
  end.

(** *** [heapq.merge] over several iterables, with a [key] *)

(** An iterable is a generator of rows: the rows it will yield and
    whether it then stops ([true]) or raises [csv.Error] ([false]). *)
Definition rows_gen : Type := (list row * bool)%type.

(** A heap entry [[key(value), order, value, next]]. Entries compare as
    lists do: by key, then by the position of the iterable; positions
    differ, so values are never compared. *)
Record entry : Type := mkentry {
  e_key : list string;
  e_order : nat;
  e_value : row;
  e_next : rows_gen
}.

Definition entry_lt (a b : entry) : bool :=
  match key_compare (e_key a) (e_key b) with
  | Lt => true
  | Eq => (e_order a <? e_order b)%nat
  | Gt => false
  end.

(** The least entry of a non-empty heap, and the others. *)
Fixpoint heap_min (e : entry) (h : list entry) : entry * list entry :=
  match h with
  | [] => (e, [])
  | e' :: h' =>
      let (m, rest) := heap_min e' h' in
      if entry_lt m e then (m, e :: rest) else (e, h)
  end.

(** The first loop of [merge]: the first row of each iterable and its key. *)
Fixpoint heap_init (key : row -> result (list string)) (order : nat)
  (its : list (M rows_gen)) : M (list entry) :=
  match its with
  | [] => ret []
  | it :: its' =>
      g <- it ;;
      match g with
      | ([], true) => heap_init key (S order) its'
      | ([], false) => raise CsvError
      | (value :: rest, ok) =>
          k <- lift (key value) ;;
          h <- heap_init key (S order) its' ;;
          ret (mkentry k order value (rest, ok) :: h)
      end
  end.

(** The rows yielded from a heap, and the exception that ends the
    iteration if one does. While two or more iterables are left the least
    entry is yielded, then replaced by the next row of its iterable, whose
    key is computed then; the last iterable is yielded from as it is, no
    key being computed. *)
Fixpoint heap_drain (fuel : nat) (key : row -> result (list string))
  (h : list entry) : list row * option exn :=
  match fuel with
  | O => ([], None)
  | S fuel' =>
      match h with
      | [] => ([], None)
      | [e] => (e_value e :: (e_next e).1,
                if (e_next e).2 then None else Some CsvError)
      | e0 :: h0 =>
          let (m, others) := heap_min e0 h0 in
          match e_next m with
          | ([], true) =>
              let (out, err) := heap_drain fuel' key others in
              (e_value m :: out, err)
          | ([], false) => ([e_value m], Some CsvError)
          | (value :: rest, ok) =>
              match key value with
              | Raise x => ([e_value m], Some x)
              | Ok k =>
                  let (out, err) :=
                    heap_drain fuel' key
                      (mkentry k (e_order m) value (rest, ok) :: others) in
                  (e_value m :: out, err)
              end
          end
      end
  end.

(** The number of rows still to come: enough steps for [heap_drain]. *)
Definition heap_size (h : list entry) : nat :=
  foldr (fun e n => S (length (e_next e).1) + n)%nat O h.

(** *** [multiprocessing.Pool] *)

(** [Pool(processes=n)] *)
Definition Pool (processes : Z) : M unit :=
  if processes <? 1 then raise ValueError else ret tt.

(** [pool.apply_async(func, args)] with the result object dropped: the
    call runs in a worker, and an exception it raises is kept in the
    result object, which nobody reads. The workers share nothing but the
    files; the tasks of one pool are taken here in the order they are
    submitted, to completion by [pool.join()]. *)
Definition apply_async (call : M unit) : M unit :=
  fun s => ((call s).1, Ok tt).

(** Calling a tuple: [TypeError: 'tuple' object is not callable]. *)
Definition call_tuple : M unit := raise TypeError.

End Py.

Import Py.
Local Open Scope py_scope.

(* ===================================================================== *)
(** ** The program                                                        *)
(* ===================================================================== *)

Section ExternalSort.

(** [hashlib.md5(b).hexdigest()] as a function of the text hashed, and the
    order in which [os.listdir] gives the names of a directory. *)
Variable md5_hexdigest : string -> string.
Variable listdir_order : list string -> list string.

(** *** [create_temp_files], lines 7-70 *)

(** The local variables of the reading loop. [write_file] is the name of
    the chunk file that is open, if one is. *)
Record split_state : Type := mksplit {
  data : string;
  file_num : nat;
  temp_files : list string;
  write_file : option string;
  header_cols : option string
}.

Definition split_name (file_num : nat) : string :=
  "./.tmp/split" +:+ format_nat file_num +:+ ".csv".

(** Truth value of [header_cols]: [None] and the empty string are false. *)
Definition truthy (o : option string) : bool :=
  match o with
  | Some (String _ _) => true
  | _ => false
  end.

(** [len(data) >= max_size], after [max_size *= 1048576]. *)
Definition reached (max_size : Q) (data : string) : bool :=
  Qle_bool (max_size * 1048576) (inject_Z (Z.of_nat (String.length data))).

(** Lines 45-48: [if not write_file], open the next chunk file. *)
Definition open_chunk (st : split_state) : M split_state :=
  match write_file st with
  | None =>
      let file_name := split_name (file_num st) in
      open_w file_name ;;;
      ret (mksplit (data st) (file_num st) (temp_files st ++ [file_name])%list
                   (Some file_name) (header_cols st))
  | Some _ => ret st
  end.

(** The body of [while True] for a line [row] that is not empty. *)
Definition split_row (max_size : Q) (header : bool) (st : split_state)
  (row : string) : M split_state :=
  if header && negb (truthy (header_cols st)) then
    ret (mksplit (data st) (file_num st) (temp_files st) (write_file st) (Some row))
  else
    st1 <- open_chunk st ;;
    let data' := data st1 +:+ row in
    if reached max_size data' then
      match write_file st1 with
      | Some f =>
          write f data' ;;;
          ret (mksplit "" (S (file_num st1)) (temp_files st1) None (header_cols st1))
      | None => raise AttributeError
      end
    else
      ret (mksplit data' (file_num st1) (temp_files st1) (write_file st1)
                   (header_cols st1)).

Definition create_temp_files (file_loc : string) (max_size : Q) (header : bool)
  : M (list string * option string) :=
  makedirs_tmp ;;;
  text <- read_text file_loc ;;
  st <- foldM (split_row max_size header) (readlines text)
              (mksplit "" 0 [] None None) ;;
  match write_file st with
  | Some f => write f (data st)
  | None => ret tt
  end ;;;
  ret (temp_files st, header_cols st).

(** *** [sort_file], lines 72-93 *)

(** [lambda row: [row[i] for i in sort_keys]] *)
Definition sort_func (sort_keys : list Z) (r : row) : result (list string) :=
  mapR (index r) sort_keys.

Definition sort_file (file_loc : string) (sort_keys : list Z)
  (delimiter : Ascii.ascii) : M unit :=
  text <- read_text file_loc ;;
  rows <- match csv_reader delimiter text with
          | Some rows => ret rows
          | None => raise CsvError
          end ;;
  rows <- lift (list_sort (sort_func sort_keys) rows) ;;
  open_w file_loc ;;;
  forM_ (fun r => write file_loc (writerow delimiter r)) rows.

(** *** [merge_files] and [_yield_rows], lines 95-133 *)

(** The generator reads with [csv.reader(f)]: the delimiter it is given is
    not handed on, so rows are always split on commas. *)
Definition _yield_rows (file_loc : string) (delimiter : Ascii.ascii) : M rows_gen :=
  text <- read_text file_loc ;;
  ret (reader_rows COMMA parse_reset (readlines text)).

Definition merge_name (files : list string) : string :=
  "./.tmp/" +:+ md5_hexdigest (join "" files) +:+ ".csv".

(** Truth value of [header]: [None] and the empty list are false. *)
Definition header_given (header : option row) : option row :=
  match header with
  | Some (_ :: _) => header
  | _ => None
  end.

(** The input files are read when the merge asks for their first rows,
    after the output file is created; the model takes the output name to
    differ from the input names, as names made by [split_name] and
    [merge_name] do unless digests collide. *)
Definition merge_files (files : list string) (sort_keys : list Z)
  (header : option row) (delimiter : Ascii.ascii) : M unit :=
  let out := merge_name files in
  open_w out ;;;
  match header_given header with
  | Some h => write out (writerow delimiter h)
  | None => ret tt
  end ;;;
  h <- heap_init (sort_func sort_keys) 0
         ((fun f => _yield_rows f delimiter) <$> files) ;;
  let (rows, err) := heap_drain (S (heap_size h)) (sort_func sort_keys) h in
  forM_ (fun r => write out (writerow delimiter r)) rows ;;;
  match err with
  | Some e => raise e
  | None => ret tt
  end ;;;
  forM_ remove files.

(** *** [_build_merge_tasks], lines 135-146 *)

Fixpoint build_loop (n_way : Z) (files batch : list string)
  (merge_tasks : list (list string)) : list string * list (list string) :=
  match files with
  | [] => (batch, merge_tasks)
  | f :: files' =>
      let batch' := (batch ++ [f])%list in
      if Z.of_nat (length batch') =? n_way
      then build_loop n_way files' [] (merge_tasks ++ [batch'])%list
      else build_loop n_way files' batch' merge_tasks
  end.

Definition _build_merge_tasks (files : list string) (n_way : Z)
  : list (list string) :=
  let (batch, merge_tasks) := build_loop n_way files [] [] in
  match batch with
  | [] => merge_tasks
  | _ :: _ => (merge_tasks ++ [batch])%list
  end.

(** *** [external_sort], lines 148-222 *)

(** Lines 177-191: partition, split the header, dispatch the sorts. The
    call [s_pool.apply_async(args)] gives the argument tuple as the
    function to call. The tasks are popped from the end of the list. *)
Definition partition_and_sort (file_loc : string) (sort_keys : list Z)
  (n_proc : Z) (max_size : Q) (header : bool) (delimiter : Ascii.ascii)
  : M row :=
  r <- create_temp_files file_loc max_size header ;;
  header_row <- match r.2 with
                | Some h => ret (split delimiter (strip h))
                | None => raise AttributeError
                end ;;
  Pool n_proc ;;;
  forM_ (fun _ : string => apply_async call_tuple) (rev r.1) ;;;
  ret header_row.

(** One turn of the merging loop, lines 195-210. [merge_files] is called
    with three arguments: its delimiter is the default comma. *)
Definition merge_round (sort_keys : list Z) (n_proc n_way : Z)
  (header_row : row) : M unit :=
  Pool n_proc ;;;
  names <- listdir_tmp listdir_order ;;
  let m_files := (fun f => "./.tmp/" +:+ f) <$> names in
  let m_tasks := _build_merge_tasks m_files n_way in
  let header_arg :=
    if (length m_tasks =? 1)%nat then Some header_row else None in
  forM_ (fun task => apply_async (merge_files task sort_keys header_arg COMMA))
        (rev m_tasks).

(** [while len(os.listdir('./.tmp/')) > 1], at most [fuel] turns; [None]
    when the loop has not ended by then. *)
Fixpoint merge_rounds (fuel : nat) (sort_keys : list Z) (n_proc n_way : Z)
  (header_row : row) (s : fs) : option (fs * result unit) :=
  match listdir_tmp listdir_order s with
  | (s', Raise e) => Some (s', Raise e)
  | (s', Ok names) =>
      if (1 <? length names)%nat then
        match fuel with
        | O => None
        | S fuel' =>
            match merge_round sort_keys n_proc n_way header_row s' with
            | (s'', Raise e) => Some (s'', Raise e)
            | (s'', Ok _) =>
                merge_rounds fuel' sort_keys n_proc n_way header_row s''
            end
        end
      else Some (s', Ok tt)
  end.

(** Lines 213-222: the name of the result, the move, the clean-up. *)
Definition sorted_name (file_loc : string) (overwrite : bool) : string :=
  if overwrite then file_loc
  else
    let parts := split DOT file_loc in
    let file_ext := List.last parts "" in
    let file_name := join "." (removelast parts) in
    file_name +:+ "_sorted." +:+ file_ext.

Definition finalize (file_loc : string) (overwrite : bool) : M unit :=
  let new_file_loc := sorted_name file_loc overwrite in
  names <- listdir_tmp listdir_order ;;
  first <- lift (index names 0) ;;
  rename ("./.tmp/" +:+ first) new_file_loc ;;;
  rmdir_tmp.

Definition external_sort (fuel : nat) (file_loc : string) (sort_keys : list Z)
  (n_proc n_way : Z) (max_size : Q) (header : bool) (delimiter : Ascii.ascii)
  (overwrite : bool) (s : fs) : option (fs * result unit) :=
  match partition_and_sort file_loc sort_keys n_proc max_size header delimiter s with
  | (s1, Raise e) => Some (s1, Raise e)
  | (s1, Ok header_row) =>
      match merge_rounds fuel sort_keys n_proc n_way header_row s1 with
      | None => None
      | Some (s2, Raise e) => Some (s2, Raise e)
      | Some (s2, Ok _) => Some (finalize file_loc overwrite s2)
      end
  end.

End ExternalSort.

(* ===================================================================== *)
(** ** The vocabulary of the properties                                   *)
(* ===================================================================== *)

(** *** Chunks *)

(** The text of a chunk: its lines one after the other. *)
Definition concat_lines (l : list string) : string := foldr String.append "" l.

(** The lines that go to chunks: all of them, or all but the header. *)
Definition data_lines (header : bool) (lines : list string) : list string :=
  if header then tail lines else lines.


(** A chunk is some lines that stayed below the threshold, or none, and
    then one more line. *)
Definition good_chunk (max_size : Q) (c : list string) : Prop :=
  exists pre last, c = (pre ++ [last])%list /\ last <> "" /\
    (pre = [] \/ reached max_size (concat_lines pre) = false).

(** What holds between two turns of the reading loop, once the header is
    past: [done] are the chunks written and closed, [cur] the lines of the
    chunk that is open. *)
Record split_inv (max_size : Q) (header : bool)
  (done : list (list string)) (cur : list string)
  (st : split_state) (s : fs) : Prop := mk_split_inv {
  inv_num : file_num st = length done;
  inv_data : data st = concat_lines cur;
  inv_files : temp_files st =
    split_name <$> seq 0 (length done + (if cur is [] then 0 else 1));
  inv_open : write_file st =
    (if cur is [] then None else Some (split_name (length done)));
  inv_cur : cur = [] \/
    (good_chunk max_size cur /\ reached max_size (concat_lines cur) = false /\
     fs_lookup s (split_name (length done)) = Some "");
  inv_done : forall i c, done !! i = Some c ->
    good_chunk max_size c /\ fs_lookup s (split_name i) = Some (concat_lines c);
  inv_tmp : is_Some (tmp s);
  inv_hdr : header && negb (truthy (header_cols st)) = false
}.

(** *** Order of records *)

(** Pairs of a key and a value, in the order of their keys. *)
Definition pair_le {V : Type} (x y : list string * V) : Prop :=
  key_le x.1 y.1 = true.

(** [r1] may come before [r2]: both have the key columns and the key of
    [r1] is not above the key of [r2]. *)
Definition row_le (sort_keys : list Z) (r1 r2 : row) : Prop :=
  exists k1 k2, sort_func sort_keys r1 = Ok k1 /\
                sort_func sort_keys r2 = Ok k2 /\ key_le k1 k2 = true.

(** [i] is not an index of [r]. *)
Definition out_of_range (r : row) (i : Z) : Prop :=
  i < - Z.of_nat (length r) \/ Z.of_nat (length r) <= i.

(** *** Merges *)

(** The generator over a file of the given text. *)
Definition gen_of (content : string) : rows_gen :=
  reader_rows COMMA parse_reset (readlines (universal_newlines content)).

(** The heap that [merge] starts from, or the exception of its first
    loop, for generators that are given. *)
Definition heap_of (key : row -> result (list string)) (gens : list rows_gen)
  : result (list entry) :=
  (heap_init key 0 (ret <$> gens) (mkfs ∅ None)).2.

(** The first line of a merge output: the header row when one is given. *)
Definition header_text (delimiter : Ascii.ascii) (header : option row) : string :=
  match header_given header with
  | Some h => writerow delimiter h
  | None => ""
  end.





(** The paths of entries of the workspace. *)
Definition tmp_paths (names : list string) : list string :=
  (fun n => tmp_prefix +:+ n) <$> names.

(** The entry that [merge_files] writes. *)
Definition merge_entry (md5_hexdigest : string -> string)
  (names : list string) : string :=
  md5_hexdigest (join "" (tmp_paths names)) +:+ ".csv".

(** Every path but [out] holds in [s'] what it holds in [s], or nothing. *)
Definition touches_only (out : string) (s s' : fs) : Prop :=
  forall q, q <> out -> fs_lookup s' q = fs_lookup s q \/ fs_lookup s' q = None.

(** [p] holds a text in [s'] that it does not hold in [s]. *)
Definition written (s s' : fs) (p : string) : Prop :=
  is_Some (fs_lookup s' p) /\ fs_lookup s' p <> fs_lookup s p.

(** *** Steps of the pipeline *)

(** The path is spelled as an entry of the workspace. *)
Definition in_workspace (p : string) : Prop := is_Some (in_tmp p).

(** From [s] to [s'] no file outside the workspace changes, and the
    workspace, if there is one, is still there. *)
Definition keeps_outside (s s' : fs) : Prop :=
  files s' = files s /\ (is_Some (tmp s) -> is_Some (tmp s')).

(** The file that is open in the reading loop, if one is, is an entry of
    the workspace. *)
Definition open_in_workspace (st : split_state) : Prop :=
  match write_file st with
  | Some f => in_workspace f
  | None => True
  end.

(** [c] occurs in [s]. *)
Fixpoint has_char (c : Ascii.ascii) (s : string) : bool :=
  match s with
  | EmptyString => false
  | String a s' => Ascii.eqb a c || has_char c s'
  end.

(** From [s] to [s'] no path changes but those of [P]. *)
Definition changes_only (P : string -> Prop) (s s' : fs) : Prop :=
  forall q, ~ P q -> fs_lookup s' q = fs_lookup s q.


(** *** The files of the workspace *)


(** *** The heap and the iterables *)


(** *** Rows that are written without quotes *)

(** A row whose fields the writer writes as they are: none holds the
    delimiter, a quote or a line ending. *)
Definition plain_row (delimiter : Ascii.ascii) (r : row) : Prop :=
  Forall (fun f => needs_quote delimiter f = false) r.

(** A delimiter that is neither the quote nor a line ending. *)
Definition plain_delimiter (delimiter : Ascii.ascii) : Prop :=
  is_newline delimiter = false /\ Ascii.eqb delimiter QUOTE = false.

(** The line of a row as the reader sees it: the fields joined, and a line
    feed. *)
Definition row_body (delimiter : Ascii.ascii) (r : row) : string :=
  match r with
  | [EmptyString] => String QUOTE (String QUOTE "")
  | _ => join (String delimiter "") r
  end.

(** *** Inputs of the runs *)

Definition NL : string := String LF "".

(** The input of the scenario of the specification: a header and three
    records, and the records alone. *)
Definition spec_input : string :=
  "a,b" +:+ NL +:+ "3,x" +:+ NL +:+ "1,y" +:+ NL +:+ "2,z" +:+ NL.

Definition spec_data : string :=
  "3,x" +:+ NL +:+ "1,y" +:+ NL +:+ "2,z" +:+ NL.

Definition spec_fs : fs := mkfs {[ "in.csv" := spec_input ]} None.

(** A record with a line feed inside a quoted field, after a header. *)
Definition QT : string := String QUOTE "".

Definition multiline_input : string :=
  "k,v" +:+ NL +:+ QT +:+ "x" +:+ NL +:+ "y" +:+ QT +:+ ",1" +:+ NL.

Definition multiline_fs : fs := mkfs {[ "in.csv" := multiline_input ]} None.

Definition CRLF : string := lineterminator.

Definition SEMI : Ascii.ascii := Ascii.ascii_of_nat 59.

(** Two files in the workspace, each in ascending order of either column
    when read with semicolons. *)
Definition semi_a : string := "x;1" +:+ NL +:+ "y;3" +:+ NL.
Definition semi_b : string := "z;2" +:+ NL.

Definition semi_dir : gmap string string :=
  {[ "a.csv" := semi_a; "b.csv" := semi_b ]}.

Definition semi_fs : fs := mkfs ∅ (Some semi_dir).

(** A chunk of three records, two of them with the same first column. *)
Definition chunk_text : string :=
  "3,x" +:+ NL +:+ "1,y" +:+ NL +:+ "1,b" +:+ NL.

Definition chunk_rows : list row := [["3"; "x"]; ["1"; "y"]; ["1"; "b"]].

Definition chunk_fs : fs := mkfs ∅ (Some {[ "split0.csv" := chunk_text ]}).



(** A workspace of three files: [a.csv] is not in order, [b.csv] and
    [c.csv] are; and a file outside it. *)
Definition mixed_dir : gmap string string :=
  {[ "a.csv" := "3,x" +:+ NL +:+ "1,y" +:+ NL;
     "b.csv" := "2,z" +:+ NL;
     "c.csv" := "1,u" +:+ NL +:+ "4,v" +:+ NL ]}.

Definition mixed_fs : fs := mkfs {[ "keep.csv" := "k" ]} (Some mixed_dir).

(** For the runs below: a digest function with values of the right
    length, and a listing in the order of the map. *)
Definition constant_digest (_ : string) : string :=
  "d41d8cd98f00b204e9800998ecf8427e".

Definition listing_order (l : list string) : list string := l.

(* ===================================================================== *)
(** ** The model on small inputs                                          *)
(* ===================================================================== *)

Section Examples.

Example readlines_last_line_without_newline :
  readlines ("ab" +:+ NL +:+ NL +:+ "c") = ["ab" +:+ NL; NL; "c"].
Proof. reflexivity. Qed.

Example universal_newlines_crlf :
  universal_newlines ("a" +:+ CRLF +:+ "b" +:+ String CR "c") 
  = "a" +:+ NL +:+ "b" +:+ NL +:+ "c".
Proof. reflexivity. Qed.

(** A quoted field may hold the delimiter and a doubled quote; a blank
    line is an empty row; a trailing delimiter ends with an empty field. *)
Example csv_reader_quoting :
  csv_reader COMMA (QT +:+ "a,b" +:+ QT +:+ QT +:+ "c" +:+ QT +:+ ",d" +:+ NL
                    +:+ NL +:+ "x," +:+ NL)
  = Some [["a,b" +:+ QT +:+ "c"; "d"]; []; ["x"; ""]].
Proof. vm_compute. reflexivity. Qed.

Example writerow_quoting :
  writerow COMMA ["a,b" +:+ QT +:+ "c"; "d"]
  = QT +:+ "a,b" +:+ QT +:+ QT +:+ "c" +:+ QT +:+ ",d" +:+ CRLF
  /\ writerow COMMA [""] = QT +:+ QT +:+ CRLF
  /\ writerow COMMA [] = CRLF.
Proof. repeat split; vm_compute; reflexivity. Qed.

Example strip_and_split :
  split COMMA (strip (" a,b,," +:+ NL)) = ["a"; "b"; ""; ""].
Proof. vm_compute. reflexivity. Qed.

Example index_negative :
  index ["a"; "b"; "c"] (-1) = Ok "c" /\ index ["a"; "b"; "c"] 3 = Raise IndexError
  /\ index ["a"; "b"; "c"] (-4) = Raise IndexError.
Proof. repeat split; reflexivity. Qed.

(** Text order, not number order: ["10"] comes before ["9"]. *)
Example key_lt_is_textual :
  key_lt ["10"] ["9"] = true /\ key_lt ["a"] ["a"; "b"] = true
  /\ key_lt ["b"] ["a"; "z"] = false.
Proof. repeat split; reflexivity. Qed.

Example list_sort_is_stable :
  list_sort (sort_func [0]) chunk_rows
  = Ok [["1"; "y"]; ["1"; "b"]; ["3"; "x"]].
Proof. vm_compute. reflexivity. Qed.

Example build_merge_tasks_batches :
  _build_merge_tasks ["a"; "b"; "c"] 2 = [["a"; "b"]; ["c"]]
  /\ _build_merge_tasks ["a"; "b"; "c"] 1 = [["a"]; ["b"]; ["c"]]
  /\ _build_merge_tasks ["a"; "b"; "c"] 0 = [["a"; "b"; "c"]].
Proof. repeat split; reflexivity. Qed.

Example sorted_name_suffix :
  sorted_name "data/in.v1.csv" false = "data/in.v1_sorted.csv"
  /\ sorted_name "in.csv" true = "in.csv".
Proof. split; vm_compute; reflexivity. Qed.

Example split_name_format : split_name 12 = "./.tmp/split12.csv".
Proof. reflexivity. Qed.

End Examples.

(* ===================================================================== *)
(** ** Properties of the file operations                                  *)
(* ===================================================================== *)

Section FileFacts.

Lemma strip_prefix_Some pre p name :
  strip_prefix pre p = Some name <-> p = pre +:+ name.
Proof.
  revert p. induction pre as [|a pre IH]; intros p; simpl.
  - split; [intros [= ->]|intros ->]; reflexivity.
  - destruct p as [|b p]; [split; discriminate|].
    destruct (Ascii.eqb_spec a b) as [->|Hab].
    + rewrite IH. split; [intros ->; reflexivity|]. intros [=]. assumption.
    + split; [discriminate|]. intros [=]. congruence.
Qed.

Lemma in_tmp_Some p name : in_tmp p = Some name <-> p = tmp_prefix +:+ name.
Proof. apply strip_prefix_Some. Qed.

Lemma in_tmp_inj p q name : in_tmp p = Some name -> in_tmp q = Some name -> p = q.
Proof. rewrite !in_tmp_Some. congruence. Qed.

(** Where a path is stored decides what a change at another path does. *)
Lemma fs_lookup_open_w p q s s' r :
  open_w p s = (s', Ok r) ->
  fs_lookup s' q = if decide (q = p) then Some "" else fs_lookup s q.
Proof.
  unfold open_w, fs_lookup.
  destruct (in_tmp p) as [a|] eqn:Hp.
  - destruct (tmp s) as [d|] eqn:Hd; [|discriminate]. intros [= <- _]. simpl.
    destruct (in_tmp q) as [b|] eqn:Hq.
    + case_decide as Hpq.
      * subst q. rewrite Hp in Hq. injection Hq as ->. apply lookup_insert_eq.
      * simpl. apply lookup_insert_ne. intros ->.
        apply Hpq. eapply in_tmp_inj; eassumption.
    + case_decide as Hpq; [subst q; congruence|reflexivity].
  - intros [= <- _]. simpl. destruct (in_tmp q) as [b|] eqn:Hq.
    + case_decide as Hpq; [subst q; congruence|reflexivity].
    + case_decide as Hpq.
      * subst q. apply lookup_insert_eq.
      * apply lookup_insert_ne. congruence.
Qed.

Lemma fs_lookup_write p q txt s s' r :
  write p txt s = (s', Ok r) ->
  fs_lookup s' q =
    if decide (q = p) then Some (default "" (fs_lookup s p) +:+ txt)
    else fs_lookup s q.
Proof.
  unfold write, fs_lookup.
  destruct (in_tmp p) as [a|] eqn:Hp.
  - destruct (tmp s) as [d|] eqn:Hd; [|discriminate]. intros [= <- _]. simpl.
    destruct (in_tmp q) as [b|] eqn:Hq.
    + case_decide as Hpq.
      * subst q. rewrite Hp in Hq. injection Hq as ->. apply lookup_insert_eq.
      * apply lookup_insert_ne. intros ->.
        apply Hpq. eapply in_tmp_inj; eassumption.
    + case_decide as Hpq; [subst q; congruence|reflexivity].
  - intros [= <- _]. simpl. destruct (in_tmp q) as [b|] eqn:Hq.
    + case_decide as Hpq; [subst q; congruence|reflexivity].
    + case_decide as Hpq.
      * subst q. apply lookup_insert_eq.
      * apply lookup_insert_ne. congruence.
Qed.

Lemma open_w_tmp_ok name s :
  is_Some (tmp s) ->
  exists s', open_w (tmp_prefix +:+ name) s = (s', Ok tt)
             /\ is_Some (tmp s') /\ files s' = files s.
Proof.
  intros [d Hd]. unfold open_w.
  assert (in_tmp (tmp_prefix +:+ name) = Some name) as -> by (by apply in_tmp_Some).
  rewrite Hd. eexists. split; [reflexivity|]. simpl. eauto.
Qed.

Lemma write_tmp_ok name txt s :
  is_Some (tmp s) ->
  exists s', write (tmp_prefix +:+ name) txt s = (s', Ok tt)
             /\ is_Some (tmp s') /\ files s' = files s.
Proof.
  intros [d Hd]. unfold write.
  assert (in_tmp (tmp_prefix +:+ name) = Some name) as -> by (by apply in_tmp_Some).
  rewrite Hd. eexists. split; [reflexivity|]. simpl. eauto.
Qed.

Lemma string_app_cons c a b : String c a +:+ b = String c (a +:+ b).
Proof. reflexivity. Qed.

Lemma string_length_app a b :
  String.length (a +:+ b) = (String.length a + String.length b)%nat.
Proof.
  induction a as [|x a IH]; [reflexivity|].
  rewrite string_app_cons. simpl. by rewrite IH.
Qed.

Lemma string_app_nil_r a : a +:+ "" = a.
Proof.
  induction a as [|x a IH]; [reflexivity|]. by rewrite string_app_cons, IH.
Qed.

Lemma string_app_assoc a b c : (a +:+ b) +:+ c = a +:+ (b +:+ c).
Proof.
  induction a as [|x a IH]; [reflexivity|]. by rewrite !string_app_cons, IH.
Qed.

Lemma string_app_inv_tail a b x : a +:+ x = b +:+ x -> a = b.
Proof.
  intros H. assert (String.length a = String.length b) as Hlen.
  { apply (f_equal String.length) in H. rewrite !string_length_app in H. lia. }
  revert b H Hlen. induction a as [|c a IH]; intros [|c' b] H Hlen;
    simpl in Hlen; try discriminate; [reflexivity|].
  rewrite !string_app_cons in H. injection H as -> H. f_equal. apply IH; [done|lia].
Qed.

Lemma format_nat_inj n m : format_nat n = format_nat m -> n = m.
Proof.
  unfold format_nat. intros H.
  apply (f_equal NilEmpty.uint_of_string) in H.
  rewrite !NilEmpty.usu in H. injection H as H.
  apply (f_equal Nat.of_uint) in H. by rewrite !DecimalNat.Unsigned.of_to in H.
Qed.

End FileFacts.

(* ===================================================================== *)
(** ** The partitioner                                                    *)
(* ===================================================================== *)

Section Partition.

Variables (max_size : Q) (header : bool).

Lemma split_name_tmp n :
  split_name n = tmp_prefix +:+ ("split" +:+ format_nat n +:+ ".csv").
Proof. reflexivity. Qed.

Lemma split_name_inj n m : split_name n = split_name m -> n = m.
Proof.
  unfold split_name. intros H. apply (inj (String.append _)) in H.
  apply string_app_inv_tail in H. by apply format_nat_inj.
Qed.

Lemma concat_lines_app a b :
  concat_lines (a ++ b) = concat_lines a +:+ concat_lines b.
Proof.
  induction a as [|x a IH]; [reflexivity|].
  simpl. by rewrite IH, string_app_assoc.
Qed.

Lemma concat_lines_snoc a x : concat_lines (a ++ [x]) = concat_lines a +:+ x.
Proof. rewrite concat_lines_app. simpl. by rewrite string_app_nil_r. Qed.

Lemma seq_snoc n : seq 0 (S n) = (seq 0 n ++ [n])%list.
Proof. by rewrite seq_S. Qed.

(** After lines 45-48 the chunk file is open. *)
Lemma open_chunk_inv done cur st s :
  split_inv max_size header done cur st s ->
  exists s1,
    open_chunk st s
    = (s1, Ok (mksplit (data st) (file_num st)
                 (split_name <$> seq 0 (length done + 1))
                 (Some (split_name (length done))) (header_cols st))) /\
    is_Some (tmp s1) /\ files s1 = files s /\
    (cur = [] -> fs_lookup s1 (split_name (length done)) = Some "") /\
    (forall i, (cur = [] -> i <> length done) ->
       fs_lookup s1 (split_name i) = fs_lookup s (split_name i)).
Proof.
  intros [Hnum Hdata Hfiles Hopen Hcur Hdone Htmp Hhdr].
  unfold open_chunk. rewrite Hopen, Hfiles, Hnum. destruct cur as [|l cur].
  - destruct (open_w_tmp_ok ("split" +:+ format_nat (length done) +:+ ".csv")
                s Htmp) as (s1 & Ho & ? & ?).
    rewrite <- split_name_tmp in Ho.
    exists s1. unfold bind, ret. simpl. rewrite Ho.
    split; [|split; [done|split; [done|split]]].
    + do 3 f_equal. rewrite Nat.add_0_r, Nat.add_1_r, seq_snoc, fmap_app. reflexivity.
    + intros _. rewrite (fs_lookup_open_w _ _ _ _ _ Ho). by rewrite decide_True.
    + intros i Hi. rewrite (fs_lookup_open_w _ _ _ _ _ Ho).
      rewrite decide_False; [done|]. intros ?%split_name_inj. by apply Hi.
  - exists s. unfold ret.
    destruct st; simpl in *. subst. by repeat split.
Qed.

(** One line more: the chunk stays open, or it is written and closed. *)
Lemma split_row_inv done cur st s row :
  row <> "" -> split_inv max_size header done cur st s ->
  exists done' cur' st' s',
    split_row max_size header st row s = (s', Ok st') /\
    split_inv max_size header done' cur' st' s' /\
    (concat done' ++ cur' = concat done ++ cur ++ [row])%list /\
    header_cols st' = header_cols st /\ files s' = files s.
Proof.
  intros Hrow Hinv.
  destruct (open_chunk_inv _ _ _ _ Hinv) as (s1 & Hs1 & Htmp1 & Hf1 & Hnew & Hold).
  destruct Hinv as [Hnum Hdata Hfiles Hopen Hcur Hdone Htmp Hhdr].
  unfold split_row. rewrite Hhdr. unfold bind at 1. rewrite Hs1. simpl.
  set (data' := data st +:+ row).
  assert (data' = concat_lines (cur ++ [row])) as Hdata'.
  { unfold data'. by rewrite concat_lines_snoc, Hdata. }
  assert (good_chunk max_size (cur ++ [row])) as Hgood.
  { exists cur, row. split; [done|split; [done|]].
    destruct Hcur as [->|(_ & ? & _)]; auto. }
  assert (fs_lookup s1 (split_name (length done)) = Some "") as Hempty.
  { destruct Hcur as [->|(Hg & _ & Hl)]; [by apply Hnew|].
    rewrite Hold; [done|]. intros ->. by destruct Hg as ([|??] & ? & ? & _). }
  destruct (reached max_size data') eqn:Hreach.
  - (* rollover *)
    destruct (write_tmp_ok ("split" +:+ format_nat (length done) +:+ ".csv")
                data' s1 Htmp1) as (s2 & Hw & Htmp2 & Hf2).
    rewrite <- split_name_tmp in Hw.
    exists (done ++ [cur ++ [row]])%list, [], 
      (mksplit "" (S (file_num st)) (split_name <$> seq 0 (length done + 1))
         None (header_cols st)), s2.
    unfold bind, ret. rewrite Hw. split; [done|]. split; [|split; [|split]].
    + constructor; simpl.
      * rewrite length_app. simpl. lia.
      * done.
      * rewrite length_app. simpl. do 2 f_equal. lia.
      * done.
      * by left.
      * intros i c Hic. rewrite (fs_lookup_write _ _ _ _ _ _ Hw).
        destruct (decide (i = length done)) as [->|Hne].
        -- rewrite decide_True by done. rewrite Hempty. simpl.
           rewrite list_lookup_middle in Hic by done. injection Hic as <-.
           split; [done|]. by rewrite <- Hdata'.
        -- rewrite decide_False by (intros ?%split_name_inj; done).
           assert (done !! i = Some c) as Hic'.
           { rewrite lookup_app_l in Hic; [done|].
             apply lookup_lt_Some in Hic. rewrite length_app in Hic.
             simpl in Hic. lia. }
           rewrite Hold by (intros _; done). by apply Hdone.
      * done.
      * done.
    + rewrite concat_app. simpl. by rewrite !app_nil_r, app_assoc.
    + done.
    + congruence.
  - (* the chunk stays open *)
    exists done, (cur ++ [row])%list,
      (mksplit data' (file_num st) (split_name <$> seq 0 (length done + 1))
         (Some (split_name (length done))) (header_cols st)), s1.
    unfold ret. split; [done|]. split; [|split; [|split]].
    + constructor; simpl.
      * done.
      * done.
      * by destruct cur.
      * by destruct cur.
      * right. rewrite <- Hdata'. done.
      * intros i c Hic. rewrite Hold; [by apply Hdone|].
        intros _. apply lookup_lt_Some in Hic. lia.
      * done.
      * done.
    + by rewrite app_assoc.
    + done.
    + done.
Qed.

(** The whole loop, from any state between two turns. *)
Lemma split_loop_inv lines :
  Forall (fun l => l <> "") lines ->
  forall done cur st s, split_inv max_size header done cur st s ->
  exists done' cur' st' s',
    foldM (split_row max_size header) lines st s = (s', Ok st') /\
    split_inv max_size header done' cur' st' s' /\
    (concat done' ++ cur' = concat done ++ cur ++ lines)%list /\
    header_cols st' = header_cols st /\ files s' = files s.
Proof.
  induction 1 as [|row lines Hrow _ IH]; intros done cur st s Hinv.
  - exists done, cur, st, s. simpl. unfold ret. by rewrite app_nil_r.
  - destruct (split_row_inv _ _ _ _ row Hrow Hinv)
      as (done1 & cur1 & st1 & s1 & Hstep & Hinv1 & Hcat1 & Hh1 & Hf1).
    destruct (IH _ _ _ _ Hinv1)
      as (done2 & cur2 & st2 & s2 & Hrest & Hinv2 & Hcat2 & Hh2 & Hf2).
    exists done2, cur2, st2, s2. simpl. unfold bind. rewrite Hstep.
    split; [done|]. split; [done|]. split; [|split; congruence].
    rewrite Hcat2, app_assoc, Hcat1. by rewrite <- !app_assoc.
Qed.

End Partition.

Lemma readlines_nonempty text : Forall (fun l => l <> "") (readlines text).
Proof.
  induction text as [|c text IH]; simpl; [constructor|].
  destruct (Ascii.eqb c LF).
  - by constructor.
  - destruct (readlines text) as [|l ls]; [by repeat constructor|].
    inversion IH; subst. by constructor.
Qed.

(** Reading by lines loses nothing of the text. *)
Lemma readlines_concat text : concat_lines (readlines text) = text.
Proof.
  induction text as [|c text IH]; simpl; [reflexivity|].
  destruct (Ascii.eqb c LF).
  - simpl. by rewrite string_app_cons, IH.
  - destruct (readlines text) as [|l ls]; simpl in *.
    + by rewrite <- IH.
    + by rewrite string_app_cons, IH.
Qed.



(** Lines 37-70 from a state in which no chunk is open: the loop over the
    lines that are left, then the last chunk. *)
Lemma split_finish max_size header lines st s :
  Forall (fun l => l <> "") lines ->
  split_inv max_size header [] [] st s ->
  exists chunks s',
    (st' <- foldM (split_row max_size header) lines st ;;
     match write_file st' with
     | Some f => write f (data st')
     | None => ret tt
     end ;;;
     ret (temp_files st', header_cols st')) s
    = (s', Ok (split_name <$> seq 0 (length chunks), header_cols st)) /\
    concat chunks = lines /\
    forall i c, chunks !! i = Some c ->
      good_chunk max_size c /\
      fs_lookup s' (split_name i) = Some (concat_lines c).
Proof.
  intros Hlines Hinv.
  destruct (split_loop_inv max_size header lines Hlines _ _ _ _ Hinv)
    as (done & cur & st' & s1 & Hloop & Hinv' & Hcat & Hh & Hf).
  destruct Hinv' as [Hnum Hdata Hfiles Hopen Hcur Hdone Htmp Hhdr].
  unfold bind at 1. rewrite Hloop. destruct cur as [|l cur].
  - exists done, s1. unfold bind, ret. rewrite Hopen, Hfiles, Hh.
    rewrite Nat.add_0_r. split; [done|]. split; [|done].
    simpl in Hcat. by rewrite app_nil_r in Hcat.
  - destruct Hcur as [|(Hgood & _ & Hempty)]; [done|].
    destruct (write_tmp_ok ("split" +:+ format_nat (length done) +:+ ".csv")
                (data st') s1 Htmp) as (s2 & Hw & Htmp2 & Hf2).
    rewrite <- split_name_tmp in Hw.
    exists (done ++ [l :: cur])%list, s2. unfold bind, ret.
    rewrite Hopen, Hw, Hfiles, Hh. split; [|split].
    + rewrite length_app. done.
    + rewrite concat_app. simpl. rewrite app_nil_r. by rewrite Hcat.
    + intros i c Hic. rewrite (fs_lookup_write _ _ _ _ _ _ Hw).
      destruct (decide (i = length done)) as [->|Hne].
      * rewrite decide_True by done. rewrite Hempty. simpl.
        rewrite list_lookup_middle in Hic by done. injection Hic as <-.
        split; [done|]. by rewrite Hdata.
      * rewrite decide_False by (intros ?%split_name_inj; done).
        apply Hdone. rewrite lookup_app_l in Hic; [done|].
        apply lookup_lt_Some in Hic. rewrite length_app in Hic.
        simpl in Hic. lia.
Qed.


(* ===================================================================== *)
(** ** Keys and the stable sort                                           *)
(* ===================================================================== *)

Section SortFacts.

Lemma string_compare_refl s : String.compare s s = Eq.
Proof.
  induction s as [|c s IH]; [reflexivity|]. simpl.
  unfold Ascii.compare. by rewrite N.compare_refl.
Qed.

Lemma string_compare_eq x y : String.compare x y = Eq <-> x = y.
Proof.
  split; [apply String.compare_eq_iff|]. intros ->. apply string_compare_refl.
Qed.

Lemma string_compare_opp x y : String.compare y x = CompOpp (String.compare x y).
Proof. apply String.compare_antisym. Qed.

Lemma key_compare_eq a b : key_compare a b = Eq <-> a = b.
Proof. apply list_compare_refl, string_compare_eq. Qed.

Lemma key_compare_opp a b : key_compare b a = CompOpp (key_compare a b).
Proof.
  apply list_compare_antisym; [apply string_compare_eq|apply string_compare_opp].
Qed.

Lemma key_lt_irrefl a : key_lt a a = false.
Proof. unfold key_lt. by rewrite (proj2 (key_compare_eq a a) eq_refl). Qed.

Lemma key_lt_asym a b : key_lt a b = true -> key_lt b a = false.
Proof.
  unfold key_lt. rewrite (key_compare_opp a b).
  by destruct (key_compare a b).
Qed.

(** Keys that are not ordered either way are the same key. *)
Lemma key_lt_neither a b : key_lt a b = false -> key_lt b a = false -> a = b.
Proof.
  unfold key_lt. rewrite (key_compare_opp a b).
  destruct (key_compare a b) eqn:H; try done. intros _ _. by apply key_compare_eq.
Qed.

Context {V : Type}.
Implicit Types (x y : list string * V) (l : list (list string * V)).

Lemma insert_by_key_perm x l : insert_by_key x l ≡ₚ x :: l.
Proof.
  induction l as [|y l IH]; simpl; [done|].
  destruct (key_lt y.1 x.1); [|done].
  rewrite IH. apply Permutation_swap.
Qed.

Lemma stable_sort_perm l : stable_sort l ≡ₚ l.
Proof.
  induction l as [|x l IH]; simpl; [done|].
  by rewrite insert_by_key_perm, IH.
Qed.

Lemma insert_by_key_hd x y l :
  HdRel pair_le y l -> key_lt y.1 x.1 = true -> HdRel pair_le y (insert_by_key x l).
Proof.
  intros Hhd Hlt. destruct l as [|z l]; simpl.
  - constructor. unfold pair_le, key_le. by rewrite key_lt_asym.
  - destruct (key_lt z.1 x.1).
    + constructor. by inversion Hhd.
    + constructor. unfold pair_le, key_le. by rewrite key_lt_asym.
Qed.

Lemma insert_by_key_sorted x l :
  Sorted pair_le l -> Sorted pair_le (insert_by_key x l).
Proof.
  induction 1 as [|y l Hs IH Hhd]; simpl.
  - by repeat constructor.
  - destruct (key_lt y.1 x.1) eqn:Hlt.
    + constructor; [done|]. by apply insert_by_key_hd.
    + constructor; [by constructor|]. constructor.
      unfold pair_le, key_le. by rewrite Hlt.
Qed.

Lemma stable_sort_sorted l : Sorted pair_le (stable_sort l).
Proof.
  induction l as [|x l IH]; simpl; [constructor|].
  by apply insert_by_key_sorted.
Qed.

(** Elements with the same key keep their order. *)
Lemma insert_by_key_filter k x l :
  filter (fun p => p.1 = k) (insert_by_key x l)
  = filter (fun p => p.1 = k) (x :: l).
Proof.
  induction l as [|y l IH]; simpl; [done|].
  destruct (key_lt y.1 x.1) eqn:Hlt; [|done].
  rewrite filter_cons, IH, !filter_cons.
  destruct (decide (y.1 = k)) as [Hy|Hy], (decide (x.1 = k)) as [Hx|Hx];
    try done.
  rewrite Hy, Hx, key_lt_irrefl in Hlt. done.
Qed.

Lemma stable_sort_filter k l :
  filter (fun p => p.1 = k) (stable_sort l) = filter (fun p => p.1 = k) l.
Proof.
  induction l as [|x l IH]; simpl; [done|].
  by rewrite insert_by_key_filter, !filter_cons, IH.
Qed.

End SortFacts.

(* ===================================================================== *)
(** ** The chunk sorter                                                   *)
(* ===================================================================== *)

Section SortFile.

Lemma mapR_Ok_zip {A B} (f : A -> result B) l ks :
  mapR f l = Ok ks ->
  Forall (fun p => f p.2 = Ok p.1) (zip ks l) /\ (zip ks l).*2 = l.
Proof.
  revert ks. induction l as [|x l IH]; intros ks; simpl.
  - intros [= <-]. by split.
  - destruct (f x) as [y|] eqn:Hx; [|done].
    destruct (mapR f l) as [ys|] eqn:Hl; [|done]. intros [= <-].
    destruct (IH ys eq_refl) as [H1 H2]. simpl. split; [by constructor|by f_equal].
Qed.

Lemma mapR_Raise_elem {A B} (f : A -> result B) l e :
  mapR f l = Raise e -> exists x, x ∈ l /\ f x = Raise e.
Proof.
  induction l as [|x l IH]; simpl; [done|].
  destruct (f x) as [y|e'] eqn:Hx.
  - destruct (mapR f l) as [ys|e'] eqn:Hl; [done|]. intros [= ->].
    destruct (IH eq_refl) as (z & ? & ?). exists z. split; [by right|done].
  - intros [= ->]. exists x. split; [by left|done].
Qed.

Lemma mapR_Ok_elem {A B} (f : A -> result B) l ys x :
  mapR f l = Ok ys -> x ∈ l -> exists y, f x = Ok y.
Proof.
  revert ys. induction l as [|z l IH]; intros ys; simpl; [by inversion 2|].
  destruct (f z) as [y|] eqn:Hz; [|done].
  destruct (mapR f l) as [ys'|] eqn:Hl; [|done]. intros _ Hin.
  apply elem_of_cons in Hin as [->|Hin]; eauto.
Qed.

(** [r[i]] raises exactly when [i] is out of range, and then IndexError. *)
Lemma index_out_of_range (r : row) i :
  out_of_range r i -> index r i = Raise IndexError.
Proof.
  unfold out_of_range, index. intros H.
  destruct (i <? 0) eqn:Hneg; [apply Z.ltb_lt in Hneg|apply Z.ltb_ge in Hneg].
  - destruct (0 <=? i + Z.of_nat (length r)) eqn:H0; [|done].
    apply Z.leb_le in H0. destruct (i + Z.of_nat (length r) <? Z.of_nat (length r)) eqn:H1;
      [|done]. lia.
  - destruct (0 <=? i) eqn:H0; [|done].
    destruct (i <? Z.of_nat (length r)) eqn:H1; [|done].
    apply Z.ltb_lt in H1. lia.
Qed.

Lemma index_in_range (r : row) i :
  ~ out_of_range r i -> exists x, index r i = Ok x.
Proof.
  unfold out_of_range, index. intros H.
  set (j := if i <? 0 then i + Z.of_nat (length r) else i).
  assert (0 <= j < Z.of_nat (length r)) as Hj.
  { unfold j. destruct (i <? 0) eqn:Hneg;
      [apply Z.ltb_lt in Hneg|apply Z.ltb_ge in Hneg]; lia. }
  assert ((0 <=? j) && (j <? Z.of_nat (length r)) = true) as ->.
  { apply andb_true_iff. split; [apply Z.leb_le|apply Z.ltb_lt]; lia. }
  fold j. clearbody j.
  destruct (_ !! _) as [x|] eqn:Hx; [exists x; reflexivity|].
  apply lookup_ge_None in Hx. lia.
Qed.

Lemma index_Raise (r : row) i e :
  index r i = Raise e -> e = IndexError /\ out_of_range r i.
Proof.
  intros H. destruct (decide (out_of_range r i)) as [Ho|Ho].
  - rewrite (index_out_of_range _ _ Ho) in H. by injection H as <-.
  - destruct (index_in_range _ _ Ho) as [x Hx]. congruence.
Qed.

(** The key function raises nothing but IndexError, and raises it when
    an index of the sort key is out of range. *)
Lemma sort_func_Raise sort_keys r e :
  sort_func sort_keys r = Raise e ->
  e = IndexError /\ exists i, i ∈ sort_keys /\ out_of_range r i.
Proof.
  intros H. apply mapR_Raise_elem in H as (i & Hi & He).
  apply index_Raise in He as [-> ?]. eauto.
Qed.

Lemma sort_func_out_of_range sort_keys r i :
  i ∈ sort_keys -> out_of_range r i ->
  sort_func sort_keys r = Raise IndexError.
Proof.
  intros Hi Ho. destruct (sort_func sort_keys r) as [k|e] eqn:Hk.
  - destruct (mapR_Ok_elem _ _ _ _ Hk Hi) as [x Hx].
    rewrite (index_out_of_range _ _ Ho) in Hx. done.
  - by apply sort_func_Raise in Hk as [-> _].
Qed.

End SortFile.

Section SortFileSpec.

(** A file that exists can be opened for writing and written to. *)
Lemma open_w_exists p s c :
  fs_lookup s p = Some c -> exists s', open_w p s = (s', Ok tt).
Proof.
  unfold fs_lookup, open_w. destruct (in_tmp p); [|eauto].
  destruct (tmp s); [eauto|done].
Qed.

Lemma write_exists p txt s c :
  fs_lookup s p = Some c -> exists s', write p txt s = (s', Ok tt).
Proof.
  unfold fs_lookup, write. destruct (in_tmp p); [|eauto].
  destruct (tmp s); [eauto|done].
Qed.

(** Writing the items of a list one after the other appends their texts. *)
Lemma forM_write {A} (g : A -> string) p (l : list A) s c :
  fs_lookup s p = Some c ->
  exists s', forM_ (fun x => write p (g x)) l s = (s', Ok tt) /\
    fs_lookup s' p = Some (c +:+ concat_lines (g <$> l)) /\
    forall q, q <> p -> fs_lookup s' q = fs_lookup s q.
Proof.
  revert s c. induction l as [|x l IH]; intros s c Hc; simpl.
  - exists s. unfold ret. by rewrite string_app_nil_r.
  - destruct (write_exists p (g x) s c Hc) as [s1 Hw].
    pose proof (fs_lookup_write _ p _ _ _ _ Hw) as Hp.
    rewrite decide_True, Hc in Hp by done. simpl in Hp.
    destruct (IH s1 _ Hp) as (s' & Hrun & Hp' & Hframe).
    exists s'. unfold bind. rewrite Hw. split; [done|]. split.
    + by rewrite Hp', string_app_assoc.
    + intros q Hq. rewrite Hframe by done.
      rewrite (fs_lookup_write _ q _ _ _ _ Hw). by rewrite decide_False.
Qed.

Lemma sorted_rows (sort_keys : list Z) (ps : list (list string * row)) :
  Forall (fun p => sort_func sort_keys p.2 = Ok p.1) ps ->
  Sorted pair_le ps -> Sorted (row_le sort_keys) ps.*2.
Proof.
  intros Hall Hs. induction Hs as [|p ps Hs IH Hhd]; simpl; [constructor|].
  inversion Hall as [|?? Hp Hps]; subst. constructor; [by apply IH|].
  destruct Hhd as [|q ps' Hpq]; simpl; constructor.
  inversion Hps; subst. by exists p.1, q.1.
Qed.

Lemma filter_rows (sort_keys : list Z) k (ps : list (list string * row)) :
  Forall (fun p => sort_func sort_keys p.2 = Ok p.1) ps ->
  (filter (fun p => p.1 = k) ps).*2
  = filter (fun r => sort_func sort_keys r = Ok k) ps.*2.
Proof.
  induction 1 as [|p ps Hp _ IH]; [done|].
  rewrite fmap_cons, !filter_cons, <- IH.
  destruct (decide (p.1 = k)) as [Hk|Hk].
  - rewrite decide_True by congruence. done.
  - rewrite decide_False by congruence. done.
Qed.

(** What [list.sort(key=...)] gives when every key can be computed. *)
Lemma list_sort_spec (sort_keys : list Z) (rows : list row) ks :
  mapR (sort_func sort_keys) rows = Ok ks ->
  exists sorted,
    list_sort (sort_func sort_keys) rows = Ok sorted /\
    sorted ≡ₚ rows /\
    Sorted (row_le sort_keys) sorted /\
    forall k, filter (fun r => sort_func sort_keys r = Ok k) sorted
              = filter (fun r => sort_func sort_keys r = Ok k) rows.
Proof.
  intros Hks. destruct (mapR_Ok_zip _ _ _ Hks) as [Hall Hsnd].
  exists (stable_sort (zip ks rows)).*2. unfold list_sort. rewrite Hks.
  assert (Forall (fun p => sort_func sort_keys p.2 = Ok p.1)
            (stable_sort (zip ks rows))) as Hall'.
  { apply Forall_forall. intros p Hp. rewrite stable_sort_perm in Hp.
    revert p Hp. by apply Forall_forall. }
  split; [done|]. split; [|split].
  - rewrite <- Hsnd at 2. apply fmap_Permutation, stable_sort_perm.
  - apply sorted_rows; [done|apply stable_sort_sorted].
  - intros k. rewrite <- (filter_rows sort_keys) by done.
    rewrite stable_sort_filter, (filter_rows sort_keys) by done. by rewrite Hsnd.
Qed.


(** C6, as the code has it. When the file parses and some record lacks a
    column of the sort key, [sort_file] raises IndexError, the exception
    of a list index out of range, and the file is left as it was: the
    record is not skipped and nothing is written. *)
Theorem sort_file_index_error file_loc sort_keys delimiter s content rows r i :
  fs_lookup s file_loc = Some content ->
  csv_reader delimiter (universal_newlines content) = Some rows ->
  r ∈ rows -> i ∈ sort_keys -> out_of_range r i ->
  sort_file file_loc sort_keys delimiter s = (s, Raise IndexError).
Proof.
  intros Hfile Hparse Hr Hi Hrange.
  unfold sort_file, bind, read_text, lift, ret. rewrite Hfile, Hparse.
  unfold list_sort.
  destruct (mapR (sort_func sort_keys) rows) as [ks|e] eqn:Hks.
  - destruct (mapR_Ok_elem _ _ _ _ Hks Hr) as [k Hk].
    rewrite (sort_func_out_of_range _ _ _ Hi Hrange) in Hk. done.
  - apply mapR_Raise_elem in Hks as (r' & _ & He).
    by apply sort_func_Raise in He as [-> _].
Qed.

End SortFileSpec.

(* ===================================================================== *)
(** ** The orchestrator                                                   *)
(* ===================================================================== *)

Section Orchestrator.

Variable md5_hexdigest : string -> string.
Variable listdir_order : list string -> list string.
Hypothesis listdir_order_perm : forall l, listdir_order l ≡ₚ l.

Lemma listdir_order_nil : listdir_order [] = [].
Proof. apply Permutation_nil_r, listdir_order_perm. Qed.

Lemma listdir_order_single x : listdir_order [x] = [x].
Proof. apply Permutation_singleton_r, listdir_order_perm. Qed.

Lemma listdir_order_length l : length (listdir_order l) = length l.
Proof. apply Permutation_length, listdir_order_perm. Qed.

(** With at most one entry in the workspace the merging loop is not
    entered. *)
Lemma merge_rounds_skip fuel sort_keys n_proc n_way header_row s d :
  tmp s = Some d -> (length (map_to_list d) <= 1)%nat ->
  merge_rounds md5_hexdigest listdir_order fuel sort_keys n_proc n_way
    header_row s = Some (s, Ok tt).
Proof.
  intros Hd Hlen.
  assert (listdir_tmp listdir_order s
          = (s, Ok (listdir_order (map_to_list d).*1))) as Hls.
  { unfold listdir_tmp. by rewrite Hd. }
  assert ((1 <? length (listdir_order (map_to_list d).*1))%nat = false) as Hone.
  { apply Nat.ltb_ge. by rewrite listdir_order_length, length_fmap. }
  destruct fuel; simpl; by rewrite Hls, Hone.
Qed.

(** The sorts: one call of a tuple per chunk, each failing in its worker. *)
Lemma sort_dispatch_noop (tasks : list string) s :
  forM_ (fun _ : string => apply_async call_tuple) tasks s = (s, Ok tt).
Proof. induction tasks as [|f tasks IH]; simpl; [done|]. unfold bind. by simpl. Qed.

(** The first steps of [create_temp_files] where the workspace does not
    exist and the source can be read. *)
Lemma create_temp_files_start file_loc s content :
  tmp s = None -> fs_lookup s file_loc = Some content ->
  makedirs_tmp s = (mkfs (files s) (Some ∅), Ok tt) /\
  read_text file_loc (mkfs (files s) (Some ∅))
  = (mkfs (files s) (Some ∅), Ok (universal_newlines content)).
Proof.
  intros Htmp Hfile. unfold makedirs_tmp, read_text, fs_lookup in *.
  rewrite Htmp. split; [done|]. simpl.
  destruct (in_tmp file_loc); [by rewrite Htmp in Hfile|]. by rewrite Hfile.
Qed.

(** Without the header flag no line is taken as the header. *)
Lemma split_row_no_header max_size st row s s' st' :
  split_row max_size false st row s = (s', Ok st') ->
  header_cols st' = header_cols st.
Proof.
  unfold split_row, open_chunk, bind, ret, raise. simpl. intros H.
  repeat case_match; simplify_eq/=; done.
Qed.

Lemma foldM_no_header max_size lines st s s' st' :
  foldM (split_row max_size false) lines st s = (s', Ok st') ->
  header_cols st' = header_cols st.
Proof.
  revert st s. induction lines as [|row lines IH]; intros st s; simpl.
  - by intros [= _ ->].
  - unfold bind.
    destruct (split_row max_size false st row s) as [s1 [st1|e]] eqn:Hrow;
      [|done].
    intros H. rewrite (IH _ _ H). by eapply split_row_no_header.
Qed.

Lemma create_temp_files_no_header file_loc max_size s s' r :
  create_temp_files file_loc max_size false s = (s', Ok r) -> r.2 = None.
Proof.
  unfold create_temp_files, bind, ret. intros H.
  destruct (makedirs_tmp s) as [s1 [[]|]]; [|done].
  destruct (read_text file_loc s1) as [s2 [text|]]; [|done].
  destruct (foldM _ _ _ s2) as [s3 [st|]] eqn:Hfold; [|done].
  apply foldM_no_header in Hfold. simpl in Hfold.
  destruct (write_file st) as [f|].
  - destruct (write f (data st) s3) as [s4 [[]|]]; by simplify_eq/=.
  - by simplify_eq/=.
Qed.

(** C10. Called with [header=False], [external_sort] fails and leaves the
    files as the partitioner left them: no sort is dispatched, nothing is
    merged. If the partitioner itself fails, that is the failure;
    otherwise the header it returns is [None] and the failure is the
    AttributeError of [None.strip()]. *)
Theorem external_sort_without_header_fails fuel file_loc sort_keys n_proc
  n_way max_size delimiter overwrite s :
  exists e,
    external_sort md5_hexdigest listdir_order fuel file_loc sort_keys n_proc
      n_way max_size false delimiter overwrite s
    = Some ((create_temp_files file_loc max_size false s).1, Raise e) /\
    match (create_temp_files file_loc max_size false s).2 with
    | Ok r => r.2 = None /\ e = AttributeError
    | Raise e' => e = e'
    end.
Proof.
  unfold external_sort, partition_and_sort. unfold bind at 1 2.
  destruct (create_temp_files file_loc max_size false s) as [s1 [r|e]] eqn:Hc.
  - pose proof (create_temp_files_no_header _ _ _ _ _ Hc) as Hnone.
    exists AttributeError. rewrite Hnone. simpl. by split.
  - exists e. by split.
Qed.

Lemma listdir_tmp_eq s d :
  tmp s = Some d ->
  listdir_tmp listdir_order s = (s, Ok (listdir_order (map_to_list d).*1)).
Proof. unfold listdir_tmp. by intros ->. Qed.

(** C4, as the code has it. On an empty source [external_sort] fails with
    the AttributeError of [None.strip()], whatever the header flag; on a
    source of one line taken as the header it fails with the IndexError of
    [os.listdir('./.tmp/')[0]]. Both leave the empty workspace behind and
    write no output file. *)
Theorem external_sort_empty_input_fails fuel file_loc sort_keys n_proc n_way
  max_size header delimiter overwrite s text h :
  tmp s = None -> fs_lookup s file_loc = Some text ->
  (text = "" ->
   external_sort md5_hexdigest listdir_order fuel file_loc sort_keys n_proc
     n_way max_size header delimiter overwrite s
   = Some (mkfs (files s) (Some ∅), Raise AttributeError)) /\
  (readlines (universal_newlines text) = [h] -> 1 <= n_proc ->
   external_sort md5_hexdigest listdir_order fuel file_loc sort_keys n_proc
     n_way max_size true delimiter overwrite s
   = Some (mkfs (files s) (Some ∅), Raise IndexError)).
Proof.
  intros Htmp Hfile.
  destruct (create_temp_files_start _ _ _ Htmp Hfile) as [Hmk Hrd].
  split.
  - intros ->. unfold external_sort, partition_and_sort, create_temp_files.
    unfold bind at 1 2 3. rewrite Hmk. unfold bind at 1. rewrite Hrd. done.
  - intros Hlines Hproc.
    unfold external_sort, partition_and_sort, create_temp_files.
    unfold bind at 1 2 3. rewrite Hmk. unfold bind at 1. rewrite Hrd, Hlines.
    assert ((n_proc <? 1) = false) as Hp by (apply Z.ltb_ge; lia).
    unfold Pool. simpl. unfold bind, ret. simpl. rewrite Hp. simpl.
    rewrite (merge_rounds_skip _ _ _ _ _ _ ∅) by (done || (rewrite map_to_list_empty; simpl; lia)).
    unfold finalize, bind. rewrite (listdir_tmp_eq _ ∅) by done.
    rewrite map_to_list_empty. simpl. by rewrite listdir_order_nil.
Qed.

(** The scenario's input under the default threshold of 100 MB: one
    chunk, no merge, and the chunk is moved to the result as it is. *)
Lemma spec_run_single_chunk fuel :
  external_sort md5_hexdigest listdir_order fuel "in.csv" [0] 2 2 100 true
    COMMA false spec_fs
  = Some (mkfs {[ "in.csv" := spec_input; "in_sorted.csv" := spec_data ]} None,
          Ok tt).
Proof.
  pose (d := ({[ "split0.csv" := spec_data ]} : gmap string string)).
  assert (partition_and_sort "in.csv" [0] 2 100 true COMMA spec_fs
          = (mkfs {[ "in.csv" := spec_input ]} (Some d), Ok ["a"; "b"])) as Hps
    by (vm_compute; reflexivity).
  unfold external_sort. rewrite Hps.
  rewrite (merge_rounds_skip _ _ _ _ _ _ d) by (done || (vm_compute; lia)).
  unfold finalize, bind. rewrite (listdir_tmp_eq _ d) by done.
  replace ((map_to_list d).*1) with ["split0.csv"] by (vm_compute; reflexivity).
  rewrite listdir_order_single. vm_compute. reflexivity.
Qed.

(** C3, as the code has it. With [header=True] and a single chunk the
    merging loop is skipped, and with it the only place where the header
    is written: the result starts with the first record, and the header
    line is nowhere in it. *)
Theorem external_sort_single_chunk_drops_header fuel :
  exists s' out,
    external_sort md5_hexdigest listdir_order fuel "in.csv" [0] 2 2 100 true
      COMMA false spec_fs = Some (s', Ok tt) /\
    fs_lookup s' "in_sorted.csv" = Some out /\
    head (readlines spec_input) = Some ("a,b" +:+ NL) /\
    head (readlines out) = Some ("3,x" +:+ NL) /\
    ("a,b" +:+ NL) ∉ readlines out.
Proof.
  eexists _, spec_data. split; [apply spec_run_single_chunk|].
  split; [vm_compute; reflexivity|]. split; [reflexivity|].
  split; [reflexivity|]. vm_compute. intros H.
  repeat (apply elem_of_cons in H as [H|H]; [discriminate H|]).
  by apply elem_of_nil in H.
Qed.

End Orchestrator.

(* ===================================================================== *)
(** ** The stage merger                                                   *)
(* ===================================================================== *)

Section WorkspaceFacts.

Implicit Types (d : gmap string string) (s : fs).

Lemma in_tmp_prefix name : in_tmp (tmp_prefix +:+ name) = Some name.
Proof. by apply in_tmp_Some. Qed.

Lemma fs_lookup_tmp s d name :
  tmp s = Some d -> fs_lookup s (tmp_prefix +:+ name) = d !! name.
Proof. unfold fs_lookup. rewrite in_tmp_prefix. by intros ->. Qed.

Lemma read_text_lookup p s c :
  fs_lookup s p = Some c -> read_text p s = (s, Ok (universal_newlines c)).
Proof. unfold read_text. by intros ->. Qed.

Lemma open_w_tmp s d name :
  tmp s = Some d ->
  open_w (tmp_prefix +:+ name) s
  = (mkfs (files s) (Some (<[name := ""]> d)), Ok tt).
Proof. unfold open_w. rewrite in_tmp_prefix. by intros ->. Qed.

Lemma write_tmp s d name c txt :
  tmp s = Some d -> d !! name = Some c ->
  write (tmp_prefix +:+ name) txt s
  = (mkfs (files s) (Some (<[name := c +:+ txt]> d)), Ok tt).
Proof. unfold write. rewrite in_tmp_prefix. by intros -> ->. Qed.

Lemma remove_tmp s d name c :
  tmp s = Some d -> d !! name = Some c ->
  remove (tmp_prefix +:+ name) s = (mkfs (files s) (Some (delete name d)), Ok tt).
Proof.
  intros Hd Hc. unfold remove. rewrite (fs_lookup_tmp _ d), Hc by done.
  by rewrite in_tmp_prefix, Hd.
Qed.

(** Writing a list of texts to an entry of the workspace. *)
Lemma forM_write_tmp {A} (g : A -> string) (l : list A) s d name c :
  tmp s = Some d -> d !! name = Some c ->
  forM_ (fun x => write (tmp_prefix +:+ name) (g x)) l s
  = (mkfs (files s) (Some (<[name := c +:+ concat_lines (g <$> l)]> d)), Ok tt).
Proof.
  revert s d c. induction l as [|x l IH]; intros s d c Hd Hc; simpl.
  - unfold ret. rewrite string_app_nil_r, insert_id by done.
    destruct s; simpl in *. by subst.
  - unfold bind. rewrite (write_tmp _ d _ c) by done.
    rewrite (IH _ (<[name := c +:+ g x]> d) (c +:+ g x));
      [|done|by rewrite lookup_insert_eq].
    simpl. by rewrite insert_insert_eq, string_app_assoc.
Qed.

(** Removing entries of the workspace one after the other. *)
Lemma forM_remove_tmp (names : list string) s d :
  tmp s = Some d -> NoDup names ->
  Forall (fun n => is_Some (d !! n)) names ->
  forM_ remove ((fun n => tmp_prefix +:+ n) <$> names) s
  = (mkfs (files s) (Some (foldl (fun m n => delete n m) d names)), Ok tt).
Proof.
  revert s d. induction names as [|n names IH]; intros s d Hd Hnd Hall; simpl.
  - unfold ret. destruct s; simpl in *. by subst.
  - apply NoDup_cons in Hnd as [Hn Hnd]. apply Forall_cons in Hall as [[c Hc] Hall].
    unfold bind. rewrite (remove_tmp _ d _ c) by done.
    rewrite (IH _ (delete n d)); [done|done|done|].
    apply Forall_forall. intros m Hm.
    rewrite lookup_delete_ne by (intros ->; done).
    by apply (proj1 (Forall_forall _ _) Hall).
Qed.

End WorkspaceFacts.

Section MergeFacts.

Variable md5_hexdigest : string -> string.

Implicit Types (d : gmap string string) (s : fs).

Lemma merge_name_entry names :
  merge_name md5_hexdigest (tmp_paths names) = tmp_prefix +:+ merge_entry md5_hexdigest names.
Proof. reflexivity. Qed.

Lemma bind_ret_l {A B} (a : A) (k : A -> M B) s : bind (ret a) k s = k a s.
Proof. reflexivity. Qed.

Lemma heap_init_cons key order it its :
  heap_init key order (it :: its)
  = (g <- it ;;
     match g with
     | ([], true) => heap_init key (S order) its
     | ([], false) => raise CsvError
     | (value :: rest, ok) =>
         k <- lift (key value) ;;
         h <- heap_init key (S order) its ;;
         ret (mkentry k order value (rest, ok) :: h)
     end).
Proof. reflexivity. Qed.

Lemma heap_init_ret key order (gens : list rows_gen) s :
  heap_init key order (ret <$> gens) s
  = (s, (heap_init key order (ret <$> gens) (mkfs ∅ None)).2).
Proof.
  revert order. induction gens as [|[rows ok] gens IH]; intros order.
  - done.
  - rewrite fmap_cons, heap_init_cons, !bind_ret_l.
    destruct rows as [|value rest].
    + destruct ok; [apply IH|done].
    + unfold bind, lift. destruct (key value) as [k|e]; [|done].
      rewrite (IH (S order)).
      by destruct (heap_init key (S order) _ (mkfs ∅ None)) as [? [?|?]].
Qed.

(** Reading the inputs of a merge leaves the files as they are. *)
Lemma heap_init_read key order delim names contents s d :
  tmp s = Some d ->
  Forall2 (fun n c => d !! n = Some c) names contents ->
  heap_init key order ((fun f => _yield_rows f delim) <$> tmp_paths names) s
  = heap_init key order (ret <$> (gen_of <$> contents)) s.
Proof.
  intros Hd Hall. revert order.
  induction Hall as [|n c names contents Hn _ IH]; intros order; [done|].
  unfold tmp_paths. rewrite !fmap_cons, !heap_init_cons.
  fold (tmp_paths names).
  assert (_yield_rows (tmp_prefix +:+ n) delim s = (s, Ok (gen_of c))) as Hy.
  { unfold _yield_rows, bind.
    rewrite (read_text_lookup _ _ c) by (by rewrite (fs_lookup_tmp _ d)). done. }
  rewrite bind_ret_l. unfold bind at 1. rewrite Hy.
  destruct (gen_of c) as [[|value rest] ok].
  - destruct ok; [apply IH|done].
  - unfold bind, lift. destruct (key value) as [k|e]; [|done]. by rewrite IH.
Qed.

Lemma Forall2_lookup_insert_ne names contents d out v :
  out ∉ names ->
  Forall2 (fun n c => d !! n = Some c) names contents ->
  Forall2 (fun n c => <[out := v]> d !! n = Some c) names contents.
Proof.
  intros Hout Hall. induction Hall as [|n c names contents Hn _ IH];
    [constructor|].
  apply not_elem_of_cons in Hout as [Hne Hout]. constructor; [|by apply IH].
  by rewrite lookup_insert_ne.
Qed.

(** The first steps of a merge: the output is created, the header row
    written when there is one, and the heap built from the inputs, or the
    exception of the first loop raised. *)
Lemma merge_files_start names sort_keys header delim s d contents
  (k : list entry -> M unit) :
  tmp s = Some d -> merge_entry md5_hexdigest names ∉ names ->
  Forall2 (fun n c => d !! n = Some c) names contents ->
  let s1 := mkfs (files s)
              (Some (<[merge_entry md5_hexdigest names := header_text delim header]> d)) in
  (open_w (merge_name md5_hexdigest (tmp_paths names)) ;;;
   match header_given header with
   | Some h => write (merge_name md5_hexdigest (tmp_paths names))
                 (writerow delim h)
   | None => ret tt
   end ;;;
   h <- heap_init (sort_func sort_keys) 0
          ((fun f => _yield_rows f delim) <$> tmp_paths names) ;;
   k h) s
  = match heap_of (sort_func sort_keys) (gen_of <$> contents) with
    | Ok h => k h s1
    | Raise e => (s1, Raise e)
    end.
Proof.
  intros Hd Hout Hall s1. rewrite merge_name_entry.
  set (out := merge_entry md5_hexdigest names) in *.
  unfold bind at 1. rewrite (open_w_tmp _ d) by done.
  assert (match header_given header with
          | Some h0 => write (tmp_prefix +:+ out) (writerow delim h0)
          | None => ret tt
          end (mkfs (files s) (Some (<[out := ""]> d))) = (s1, Ok tt)) as Hhdr.
  { unfold s1, header_text. destruct (header_given header) as [h0|].
    - rewrite (write_tmp _ (<[out := ""]> d) _ "")
        by (done || by rewrite lookup_insert_eq).
      simpl. by rewrite insert_insert_eq.
    - unfold ret. by rewrite insert_insert_eq || done. }
  unfold bind at 1. rewrite Hhdr. unfold bind at 1.
  rewrite (heap_init_read _ _ _ _ contents s1
             (<[out := header_text delim header]> d))
    by (done || by apply Forall2_lookup_insert_ne).
  rewrite heap_init_ret. unfold heap_of.
  by destruct (heap_init _ 0 _ (mkfs ∅ None)) as [? [?|?]].
Qed.

(** A merge whose first loop succeeds and whose rows all come out. *)
Lemma merge_files_tmp names sort_keys header delim s d contents h rows :
  tmp s = Some d -> NoDup names -> merge_entry md5_hexdigest names ∉ names ->
  Forall2 (fun n c => d !! n = Some c) names contents ->
  heap_of (sort_func sort_keys) (gen_of <$> contents) = Ok h ->
  heap_drain (S (heap_size h)) (sort_func sort_keys) h = (rows, None) ->
  merge_files md5_hexdigest (tmp_paths names) sort_keys header delim s
  = (mkfs (files s)
       (Some (foldl (fun m n => delete n m)
                (<[merge_entry md5_hexdigest names :=
                     header_text delim header
                     +:+ concat_lines (writerow delim <$> rows)]> d) names)),
     Ok tt).
Proof.
  intros Hd Hnd Hout Hall Hheap Hdrain.
  unfold merge_files.
  rewrite (merge_files_start _ _ _ _ _ d contents) by done.
  rewrite Hheap, Hdrain, merge_name_entry.
  set (out := merge_entry md5_hexdigest names) in *.
  set (d1 := <[out := header_text delim header]> d).
  unfold bind at 1.
  rewrite (forM_write_tmp _ _ _ d1 _ (header_text delim header))
    by (done || apply lookup_insert_eq).
  unfold bind at 1. unfold ret at 1. simpl files.
  unfold d1. rewrite insert_insert_eq.
  rewrite (forM_remove_tmp names _
             (<[out := header_text delim header
                       +:+ concat_lines (writerow delim <$> rows)]> d));
    [done|done|done|].
  apply Forall_forall. intros n Hn.
  rewrite lookup_insert_ne by (intros ->; done).
  apply list_elem_of_lookup in Hn as [i Hi].
  destruct (Forall2_lookup_l _ _ _ _ _ Hall Hi) as (c & _ & Hc). eauto.
Qed.

(** A merge whose first loop raises: the output stays as created, the
    inputs stay where they are. *)
Lemma merge_files_init_error names sort_keys header delim s d contents e :
  tmp s = Some d -> merge_entry md5_hexdigest names ∉ names ->
  Forall2 (fun n c => d !! n = Some c) names contents ->
  heap_of (sort_func sort_keys) (gen_of <$> contents) = Raise e ->
  merge_files md5_hexdigest (tmp_paths names) sort_keys header delim s
  = (mkfs (files s)
       (Some (<[merge_entry md5_hexdigest names := header_text delim header]> d)), Raise e).
Proof.
  intros Hd Hout Hall Hheap. unfold merge_files.
  rewrite (merge_files_start _ _ _ _ _ d contents) by done.
  by rewrite Hheap.
Qed.

End MergeFacts.

Section Rounds.

Variable md5_hexdigest : string -> string.
Variable listdir_order : list string -> list string.
Hypothesis listdir_order_perm : forall l, listdir_order l ≡ₚ l.

Implicit Types (d : gmap string string) (s : fs).

Lemma foldl_delete_insert_ne names d out v :
  out ∉ names ->
  foldl (fun m n => delete n m) (<[out := v]> d) names
  = <[out := v]> (foldl (fun m n => delete n m) d names).
Proof.
  revert d. induction names as [|n names IH]; intros d Hout; simpl; [done|].
  apply not_elem_of_cons in Hout as [Hne Hout].
  rewrite delete_insert_ne by done. by apply IH.
Qed.

(** One turn of the merging loop when all the files make one task: the
    merge runs with the header, and its exception, if any, is dropped. *)
Lemma merge_round_one_task sort_keys n_proc n_way header_row s d names :
  tmp s = Some d -> 1 <= n_proc ->
  listdir_order (map_to_list d).*1 = names ->
  _build_merge_tasks (tmp_paths names) n_way = [tmp_paths names] ->
  merge_round md5_hexdigest listdir_order sort_keys n_proc n_way header_row s
  = ((merge_files md5_hexdigest (tmp_paths names) sort_keys (Some header_row)
        COMMA s).1, Ok tt).
Proof.
  intros Hd Hproc Hnames Htasks. unfold merge_round, Pool.
  assert ((n_proc <? 1) = false) as -> by (apply Z.ltb_ge; lia).
  rewrite bind_ret_l. unfold bind at 1.
  rewrite (listdir_tmp_eq listdir_order _ d) by done.
  rewrite Hnames.
  change ((fun f => "./.tmp/" +:+ f) <$> names) with (tmp_paths names).
  rewrite Htasks. simpl.
  unfold bind, apply_async, ret. done.
Qed.

(** The end of a run whose workspace holds one file. *)
Lemma finalize_single file_loc overwrite s name c :
  tmp s = Some {[name := c]} ->
  in_tmp (sorted_name file_loc overwrite) = None ->
  finalize listdir_order file_loc overwrite s
  = (mkfs (<[sorted_name file_loc overwrite := c]> (files s)) None, Ok tt).
Proof.
  intros Hd Hdst. unfold finalize. unfold bind at 1.
  rewrite (listdir_tmp_eq listdir_order _ {[name := c]}) by done.
  rewrite map_to_list_singleton. simpl.
  rewrite (listdir_order_single _ listdir_order_perm).
  unfold bind at 1. unfold lift. simpl.
  change ("./.tmp/" +:+ name) with (tmp_prefix +:+ name).
  unfold bind at 1. unfold rename.
  rewrite (fs_lookup_tmp _ {[name := c]}), lookup_singleton_eq by done.
  rewrite Hdst. unfold bind at 1.
  rewrite (remove_tmp _ {[name := c]} _ c) by (done || apply lookup_singleton_eq).
  unfold bind at 1. unfold open_w at 1. rewrite Hdst. simpl.
  unfold write at 1. rewrite Hdst. simpl.
  rewrite lookup_insert_eq, insert_insert_eq. simpl.
  unfold rmdir_tmp. simpl. rewrite delete_singleton_eq, map_to_list_empty. done.
Qed.

End Rounds.

Section Runs.

Variable md5_hexdigest : string -> string.
Variable listdir_order : list string -> list string.
Hypothesis listdir_order_perm : forall l, listdir_order l ≡ₚ l.
(** A hexadecimal MD5 digest has 32 characters. *)
Hypothesis md5_hexdigest_length :
  forall x, String.length (md5_hexdigest x) = 32%nat.

Implicit Types (d : gmap string string) (s : fs).

Lemma merge_entry_fresh names n :
  String.length n <> 36%nat -> merge_entry md5_hexdigest names <> n.
Proof.
  intros Hn <-. apply Hn. unfold merge_entry.
  by rewrite string_length_app, md5_hexdigest_length.
Qed.

Lemma merge_rounds_S fuel sort_keys n_proc n_way header_row s :
  merge_rounds md5_hexdigest listdir_order (S fuel) sort_keys n_proc n_way
    header_row s
  = match listdir_tmp listdir_order s with
    | (s', Raise e) => Some (s', Raise e)
    | (s', Ok names) =>
        if (1 <? length names)%nat then
          match merge_round md5_hexdigest listdir_order sort_keys n_proc n_way
                  header_row s' with
          | (s'', Raise e) => Some (s'', Raise e)
          | (s'', Ok _) =>
              merge_rounds md5_hexdigest listdir_order fuel sort_keys n_proc
                n_way header_row s''
          end
        else Some (s', Ok tt)
    end.
Proof. reflexivity. Qed.

(** A run in which the partitioner leaves two chunks: one merge of the
    two, with the header, gives the result. What is merged is the chunks
    as the partitioner wrote them. *)
Lemma external_sort_two_chunks fuel file_loc sort_keys n_proc max_size
  delimiter s files0 c0 c1 header_row rows :
  partition_and_sort file_loc sort_keys n_proc max_size true delimiter s
  = (mkfs files0 (Some {[ "split0.csv" := c0; "split1.csv" := c1 ]}),
     Ok header_row) ->
  1 <= n_proc ->
  in_tmp (sorted_name file_loc false) = None ->
  (exists h, heap_of (sort_func sort_keys) (gen_of <$> [c0; c1]) = Ok h /\
             heap_drain (S (heap_size h)) (sort_func sort_keys) h = (rows, None)) ->
  (exists h, heap_of (sort_func sort_keys) (gen_of <$> [c1; c0]) = Ok h /\
             heap_drain (S (heap_size h)) (sort_func sort_keys) h = (rows, None)) ->
  external_sort md5_hexdigest listdir_order (S fuel) file_loc sort_keys n_proc
    2 max_size true delimiter false s
  = Some (mkfs (<[sorted_name file_loc false :=
                    header_text COMMA (Some header_row)
                    +:+ concat_lines (writerow COMMA <$> rows)]> files0) None,
          Ok tt).
Proof.
  intros Hps Hproc Hdst (h01 & Hh01 & Hd01) (h10 & Hh10 & Hd10).
  set (d := ({[ "split0.csv" := c0; "split1.csv" := c1 ]} : gmap string string)) in *.
  set (text := header_text COMMA (Some header_row)
               +:+ concat_lines (writerow COMMA <$> rows)).
  unfold external_sort. rewrite Hps.
  assert (d !! "split0.csv" = Some c0) as Hl0 by (by unfold d; simplify_map_eq).
  assert (d !! "split1.csv" = Some c1) as Hl1 by (by unfold d; simplify_map_eq).
  (* the listing is the two names, either way round *)
  assert ((map_to_list d).*1 ≡ₚ ["split0.csv"; "split1.csv"]) as Hperm.
  { unfold d. rewrite map_to_list_insert by (by simplify_map_eq).
    by rewrite map_to_list_singleton. }
  assert (forall names contents,
    listdir_order (map_to_list d).*1 = names ->
    NoDup names -> Forall (fun n => String.length n <> 36%nat) names ->
    length names = 2%nat ->
    Forall2 (fun n c => d !! n = Some c) names contents ->
    foldl (fun m n => delete n m) d names = ∅ ->
    (exists h, heap_of (sort_func sort_keys) (gen_of <$> contents) = Ok h /\
               heap_drain (S (heap_size h)) (sort_func sort_keys) h = (rows, None)) ->
    _build_merge_tasks (tmp_paths names) 2 = [tmp_paths names] ->
    match merge_rounds md5_hexdigest listdir_order (S fuel) sort_keys n_proc 2
            header_row (mkfs files0 (Some d)) with
    | Some (s2, Ok _) => Some (finalize listdir_order file_loc false s2)
    | Some (s2, Raise e) => Some (s2, Raise e)
    | None => None
    end
    = Some (mkfs (<[sorted_name file_loc false := text]> files0) None, Ok tt))
    as Hcase.
  { intros names contents Hnames Hnd Hlen Hlen2 Hall Hdel (h & Hh & Hdr) Htasks.
    rewrite merge_rounds_S, (listdir_tmp_eq listdir_order _ d) by done.
    rewrite Hnames, Hlen2. change (1 <? 2)%nat with true. cbv iota.
    rewrite (merge_round_one_task _ _ _ _ _ _ _ d names) by done.
    assert (merge_entry md5_hexdigest names ∉ names) as Hfresh.
    { intros Hin. apply (proj1 (Forall_forall _ _) Hlen) in Hin.
      by apply (merge_entry_fresh names _ Hin). }
    rewrite (merge_files_tmp _ _ _ _ _ _ d contents h rows) by done.
    simpl fst. rewrite foldl_delete_insert_ne, Hdel, insert_empty by done.
    fold text.
    rewrite (merge_rounds_skip _ _ listdir_order_perm _ _ _ _ _ _
               {[merge_entry md5_hexdigest names := text]})
      by (done || (rewrite map_to_list_singleton; simpl; lia)).
    by rewrite (finalize_single _ listdir_order_perm _ _ _
                  (merge_entry md5_hexdigest names) text). }
  assert (listdir_order (map_to_list d).*1 ≡ₚ ["split0.csv"; "split1.csv"])
    as Hord by (etrans; [apply listdir_order_perm|exact Hperm]).
  symmetry in Hord.
  apply Permutation_length_2_inv in Hord as [Hord|Hord].
  - apply (Hcase _ [c0; c1] Hord).
    + apply NoDup_cons. split; [|apply NoDup_singleton].
      by intros ?%list_elem_of_singleton.
    + by repeat constructor.
    + done.
    + by repeat constructor.
    + simpl. unfold d. apply map_eq. intros i.
      rewrite lookup_empty. apply lookup_delete_None.
      destruct (decide ("split1.csv" = i)) as [<-|?]; [by left|right].
      apply lookup_delete_None.
      destruct (decide ("split0.csv" = i)) as [<-|?]; [by left|right].
      by simplify_map_eq.
    + eauto.
    + reflexivity.
  - apply (Hcase _ [c1; c0] Hord).
    + apply NoDup_cons. split; [|apply NoDup_singleton].
      by intros ?%list_elem_of_singleton.
    + by repeat constructor.
    + done.
    + by repeat constructor.
    + simpl. unfold d. apply map_eq. intros i.
      rewrite lookup_empty. apply lookup_delete_None.
      destruct (decide ("split0.csv" = i)) as [<-|?]; [by left|right].
      apply lookup_delete_None.
      destruct (decide ("split1.csv" = i)) as [<-|?]; [by left|right].
      by simplify_map_eq.
    + eauto.
    + reflexivity.
Qed.

(** The scenario's input under a threshold of 8 characters: the first
    chunk holds two records, the second one; the merge gives the header
    and the three records, the two of the first chunk in the order of the
    input. *)
Lemma spec_run_two_chunks fuel :
  external_sort md5_hexdigest listdir_order (S fuel) "in.csv" [0] 2 2
    (8 # 1048576) true COMMA false spec_fs
  = Some (mkfs {[ "in.csv" := spec_input;
                  "in_sorted.csv" := "a,b" +:+ CRLF +:+ "2,z" +:+ CRLF
                                     +:+ "3,x" +:+ CRLF +:+ "1,y" +:+ CRLF ]}
               None, Ok tt).
Proof.
  rewrite (external_sort_two_chunks fuel "in.csv" [0] 2 (8 # 1048576) COMMA
             spec_fs {[ "in.csv" := spec_input ]}
             ("3,x" +:+ NL +:+ "1,y" +:+ NL) ("2,z" +:+ NL) ["a"; "b"]
             [["2"; "z"]; ["3"; "x"]; ["1"; "y"]]).
  - vm_compute. reflexivity.
  - vm_compute. reflexivity.
  - lia.
  - reflexivity.
  - eexists. split; vm_compute; reflexivity.
  - eexists. split; vm_compute; reflexivity.
Qed.

(** C1, as the code has it. No chunk is ever sorted: the sorts are
    dispatched as calls of a tuple. On the scenario's input the result is
    not in order: under the default threshold it holds the records as
    the input has them; under a threshold of 8 characters it is the merge
    of two chunks of which the first was never sorted. In both the record
    of key 3 comes right before the record of key 1. *)
Theorem external_sort_output_not_sorted fuel :
  exists s1 out1 s2 out2,
    external_sort md5_hexdigest listdir_order (S fuel) "in.csv" [0] 2 2 100
      true COMMA false spec_fs = Some (s1, Ok tt) /\
    fs_lookup s1 "in_sorted.csv" = Some out1 /\
    csv_reader COMMA (universal_newlines out1)
    = Some [["3"; "x"]; ["1"; "y"]; ["2"; "z"]] /\
    external_sort md5_hexdigest listdir_order (S fuel) "in.csv" [0] 2 2
      (8 # 1048576) true COMMA false spec_fs = Some (s2, Ok tt) /\
    fs_lookup s2 "in_sorted.csv" = Some out2 /\
    csv_reader COMMA (universal_newlines out2)
    = Some [["a"; "b"]; ["2"; "z"]; ["3"; "x"]; ["1"; "y"]] /\
    sort_func [0] ["3"; "x"] = Ok ["3"] /\
    sort_func [0] ["1"; "y"] = Ok ["1"] /\
    key_le ["3"] ["1"] = false /\
    ~ row_le [0] ["3"; "x"] ["1"; "y"].
Proof.
  eexists _, spec_data, _, _.
  split; [apply (spec_run_single_chunk _ _ listdir_order_perm)|].
  split; [vm_compute; reflexivity|]. split; [vm_compute; reflexivity|].
  split; [apply spec_run_two_chunks|].
  split; [vm_compute; reflexivity|]. split; [vm_compute; reflexivity|].
  split; [reflexivity|]. split; [reflexivity|]. split; [reflexivity|].
  intros (k1 & k2 & H1 & H2 & Hle). vm_compute in H1, H2. by simplify_eq.
Qed.

(** C2, as the code has it. The partitioner cuts the source at line
    feeds, also inside a quoted field. Under a threshold of 3 characters
    the one record of [multiline_input] goes to two chunks, half to each;
    the merge reads each half as a record of its own, and the result
    holds two records where the source holds one. *)
Theorem external_sort_splits_quoted_record fuel :
  exists s' out,
    external_sort md5_hexdigest listdir_order (S fuel) "in.csv" [0] 2 2
      (3 # 1048576) true COMMA false multiline_fs = Some (s', Ok tt) /\
    fs_lookup s' "in_sorted.csv" = Some out /\
    csv_reader COMMA (universal_newlines multiline_input)
    = Some [["k"; "v"]; ["x" +:+ NL +:+ "y"; "1"]] /\
    csv_reader COMMA (universal_newlines out)
    = Some [["k"; "v"]; ["x" +:+ NL]; ["y" +:+ QT; "1"]] /\
    ~ ([["x" +:+ NL]; ["y" +:+ QT; "1"]] ≡ₚ [["x" +:+ NL +:+ "y"; "1"]]).
Proof.
  eexists _, _. split.
  { rewrite (external_sort_two_chunks fuel "in.csv" [0] 2 (3 # 1048576) COMMA
               multiline_fs {[ "in.csv" := multiline_input ]}
               (QT +:+ "x" +:+ NL) ("y" +:+ QT +:+ ",1" +:+ NL) ["k"; "v"]
               [["x" +:+ NL]; ["y" +:+ QT; "1"]]).
    - reflexivity.
    - vm_compute. reflexivity.
    - lia.
    - reflexivity.
    - eexists. split; vm_compute; reflexivity.
    - eexists. split; vm_compute; reflexivity. }
  split; [vm_compute; reflexivity|]. split; [vm_compute; reflexivity|].
  split; [vm_compute; reflexivity|].
  intros Hp. apply Permutation_length in Hp. discriminate.
Qed.

End Runs.

(* ===================================================================== *)
(** ** What a merge touches                                               *)
(* ===================================================================== *)

Section Frame.

Implicit Types (s : fs).

Lemma touches_only_refl out s : touches_only out s s.
Proof. intros q _. by left. Qed.

Lemma touches_only_trans out s1 s2 s3 :
  touches_only out s1 s2 -> touches_only out s2 s3 -> touches_only out s1 s3.
Proof.
  intros H12 H23 q Hq. destruct (H23 q Hq) as [H|H]; [|by right].
  rewrite H. by apply H12.
Qed.

Lemma touches_only_bind {A B} out (m : M A) (k : A -> M B) s :
  (forall s, touches_only out s (m s).1) ->
  (forall a s, touches_only out s (k a s).1) ->
  touches_only out s (bind m k s).1.
Proof.
  intros Hm Hk. unfold bind. specialize (Hm s).
  destruct (m s) as [s1 [a|e]]; simpl in *; [|done].
  eapply touches_only_trans; [exact Hm|apply Hk].
Qed.

Lemma touches_only_forM {A} out (f : A -> M unit) l s :
  (forall x s, touches_only out s (f x s).1) ->
  touches_only out s (forM_ f l s).1.
Proof.
  intros Hf. revert s. induction l as [|x l IH]; intros s; simpl.
  - apply touches_only_refl.
  - apply touches_only_bind; [apply Hf|]. intros _ s'. apply IH.
Qed.

Lemma open_w_Raise p s s' e : open_w p s = (s', Raise e) -> s' = s.
Proof.
  unfold open_w. destruct (in_tmp p); [destruct (tmp s)|]; by intros [=].
Qed.

Lemma write_Raise p txt s s' e : write p txt s = (s', Raise e) -> s' = s.
Proof.
  unfold write. destruct (in_tmp p); [destruct (tmp s)|]; by intros [=].
Qed.

Lemma touches_only_open_w p s : touches_only p s (open_w p s).1.
Proof.
  destruct (open_w p s) as [s' [[]|e]] eqn:Ho; simpl.
  - intros q Hq. left. rewrite (fs_lookup_open_w _ q _ _ _ Ho).
    by rewrite decide_False.
  - apply open_w_Raise in Ho as ->. apply touches_only_refl.
Qed.

Lemma touches_only_write p txt s : touches_only p s (write p txt s).1.
Proof.
  destruct (write p txt s) as [s' [[]|e]] eqn:Hw; simpl.
  - intros q Hq. left. rewrite (fs_lookup_write _ q _ _ _ _ Hw).
    by rewrite decide_False.
  - apply write_Raise in Hw as ->. apply touches_only_refl.
Qed.

Lemma touches_only_remove out p s : touches_only out s (remove p s).1.
Proof.
  intros q _. unfold remove.
  destruct (fs_lookup s p) as [c|] eqn:Hp; simpl; [|by left].
  unfold fs_lookup in *. destruct (in_tmp p) as [a|] eqn:Ha; simpl.
  - destruct (in_tmp q) as [b|]; [|by left].
    destruct (tmp s) as [d|]; simpl; [|by left].
    destruct (decide (a = b)) as [->|Hab].
    + right. apply lookup_delete_eq.
    + left. by apply lookup_delete_ne.
  - destruct (in_tmp q) as [b|]; [by left|].
    destruct (decide (p = q)) as [->|Hpq].
    + right. apply lookup_delete_eq.
    + left. by apply lookup_delete_ne.
Qed.

(** Reading changes nothing. *)
Lemma yield_rows_state f delim s : (_yield_rows f delim s).1 = s.
Proof.
  unfold _yield_rows, bind, read_text. by destruct (fs_lookup s f).
Qed.

Lemma heap_init_state key order delim files s :
  (heap_init key order ((fun f => _yield_rows f delim) <$> files) s).1 = s.
Proof.
  revert order. induction files as [|f files IH]; intros order; [done|].
  rewrite fmap_cons, heap_init_cons. unfold bind at 1.
  pose proof (yield_rows_state f delim s) as Hy.
  destruct (_yield_rows f delim s) as [s1 [[rows ok]|e]]; simpl in Hy; subst;
    [|done].
  destruct rows as [|value rest].
  - destruct ok; [apply IH|done].
  - unfold bind, lift. destruct (key value); [|done].
    specialize (IH (S order)).
    by destruct (heap_init key (S order) _ s) as [s2 [h|e]].
Qed.

End Frame.

Section MergeClaims.

Variable md5_hexdigest : string -> string.

(** A merge changes no path but its output. *)
Lemma merge_files_touches_only files sort_keys header delimiter s :
  touches_only (merge_name md5_hexdigest files) s
    (merge_files md5_hexdigest files sort_keys header delimiter s).1.
Proof.
  unfold merge_files.
  apply touches_only_bind; [apply touches_only_open_w|]. intros _ s1.
  apply touches_only_bind.
  { intros s2. destruct (header_given header);
      [apply touches_only_write|apply touches_only_refl]. }
  intros _ s2. apply touches_only_bind.
  { intros s3. rewrite heap_init_state. apply touches_only_refl. }
  intros h s3.
  destruct (heap_drain (S (heap_size h)) (sort_func sort_keys) h) as [rows err].
  apply touches_only_bind.
  { intros s4. apply touches_only_forM. intros r s5. apply touches_only_write. }
  intros _ s4. apply touches_only_bind.
  { intros s5. destruct err; apply touches_only_refl. }
  intros _ s5. apply touches_only_forM. intros f s6. apply touches_only_remove.
Qed.

(** C9. Whatever [merge_files] writes, it writes at [merge_name files]: a
    path made from the digest of the joined input names, whatever the
    files hold, the sort key, the header and the delimiter. Two merges
    over the same list of names write to the same path. *)
Theorem merge_files_output_name files sort_keys1 header1 delimiter1 s1
  sort_keys2 header2 delimiter2 s2 p1 p2 :
  written s1 (merge_files md5_hexdigest files sort_keys1 header1 delimiter1 s1).1 p1 ->
  written s2 (merge_files md5_hexdigest files sort_keys2 header2 delimiter2 s2).1 p2 ->
  p1 = merge_name md5_hexdigest files /\ p2 = p1.
Proof.
  assert (forall sort_keys header delimiter s p,
    written s (merge_files md5_hexdigest files sort_keys header delimiter s).1 p ->
    p = merge_name md5_hexdigest files) as Hone.
  { intros sort_keys header delimiter s p [[c Hc] Hne].
    destruct (decide (p = merge_name md5_hexdigest files)) as [|Hp]; [done|].
    destruct (merge_files_touches_only files sort_keys header delimiter s p Hp)
      as [H|H]; congruence. }
  intros H1 H2. apply Hone in H1, H2. by subst.
Qed.

(** C5, as the code has it. [_yield_rows] is given the delimiter and
    reads with [csv.reader(f)] all the same: the inputs are split on
    commas. With a semicolon as the delimiter each line of [semi_a] and
    [semi_b] is read as one field. Asked to merge on the second column,
    [merge_files] raises IndexError on the first row: the output stays
    empty and the inputs are not deleted. Asked to merge on the first
    column it ends, having written every line as one quoted field: read
    back with the semicolon, the output holds records of one field where
    the inputs hold records of two. *)
Theorem merge_files_reads_with_commas :
  merge_entry md5_hexdigest ["a.csv"; "b.csv"] ∉ ["a.csv"; "b.csv"] ->
  (csv_reader SEMI (universal_newlines semi_a)
   = Some [["x"; "1"]; ["y"; "3"]] /\
   csv_reader SEMI (universal_newlines semi_b) = Some [["z"; "2"]] /\
   Sorted (row_le [1]) [["x"; "1"]; ["y"; "3"]] /\
   Sorted (row_le [1]) [["z"; "2"]]) /\
  merge_files md5_hexdigest (tmp_paths ["a.csv"; "b.csv"]) [1] None SEMI semi_fs
  = (mkfs ∅ (Some (<[merge_entry md5_hexdigest ["a.csv"; "b.csv"] := ""]>
                     semi_dir)),
     Raise IndexError) /\
  (exists out,
     merge_files md5_hexdigest (tmp_paths ["a.csv"; "b.csv"]) [0] None SEMI
       semi_fs
     = (mkfs ∅ (Some {[merge_entry md5_hexdigest ["a.csv"; "b.csv"] := out]}),
        Ok tt) /\
     csv_reader SEMI (universal_newlines out)
     = Some [["x;1"]; ["y;3"]; ["z;2"]]).
Proof.
  intros Hfresh.
  assert (Forall2 (fun n c => semi_dir !! n = Some c) ["a.csv"; "b.csv"]
            [semi_a; semi_b]) as Hall.
  { repeat constructor; vm_compute; reflexivity. }
  split; [|split].
  - split; [vm_compute; reflexivity|]. split; [vm_compute; reflexivity|].
    split; repeat constructor; eexists _, _;
      (split; [vm_compute; reflexivity|]); (split; vm_compute; reflexivity).
  - rewrite (merge_files_init_error _ _ _ _ _ _ semi_dir [semi_a; semi_b]
               IndexError); first [done | vm_compute; reflexivity].
  - assert (exists h,
      heap_of (sort_func [0]) (gen_of <$> [semi_a; semi_b]) = Ok h /\
      heap_drain (S (heap_size h)) (sort_func [0]) h
      = ([["x;1"]; ["y;3"]; ["z;2"]], None)) as (h & Hh & Hd)
      by (eexists; split; vm_compute; reflexivity).
    eexists.
    rewrite (merge_files_tmp _ _ _ _ _ _ semi_dir [semi_a; semi_b] h
               [["x;1"]; ["y;3"]; ["z;2"]]); try done.
    + rewrite foldl_delete_insert_ne by done.
      replace (foldl (fun m n => delete n m) semi_dir ["a.csv"; "b.csv"])
        with (∅ : gmap string string) by (vm_compute; reflexivity).
      rewrite insert_empty. split; [reflexivity|]. vm_compute. reflexivity.
    + apply NoDup_cons. split; [|apply NoDup_singleton].
      by intros ?%list_elem_of_singleton.
Qed.

End MergeClaims.

(* ===================================================================== *)
(** ** The k-way merge                                                    *)
(* ===================================================================== *)

Section KWayMerge.













Section Drain.

Variable sort_keys : list Z.

Let key := sort_func sort_keys.
Let R := row_le sort_keys.



End Drain.

End KWayMerge.

Section MergeSorted.

Variable md5_hexdigest : string -> string.
Variable sort_keys : list Z.



End MergeSorted.

(* ===================================================================== *)
(** ** The properties at concrete inputs                                  *)
(* ===================================================================== *)

Lemma listing_order_perm l : listing_order l ≡ₚ l.
Proof. reflexivity. Defined.

Lemma constant_digest_length x : String.length (constant_digest x) = 32%nat.
Proof. reflexivity. Defined.



Lemma sort_file_index_error_witness :
  sort_file "./.tmp/split0.csv" [5] COMMA chunk_fs
  = (chunk_fs, Raise IndexError).
Proof.
  apply (sort_file_index_error "./.tmp/split0.csv" [5] COMMA chunk_fs
           chunk_text chunk_rows ["3"; "x"] 5).
  - vm_compute. reflexivity.
  - vm_compute. reflexivity.
  - apply list_elem_of_here.
  - apply list_elem_of_here.
  - right. simpl. lia.
Defined.

(** C6 as stated fails: the sort key [5] is out of range for the records
    of [chunk_text], and what [sort_file] raises is IndexError, not
    KeyError. *)
Lemma sort_file_raises_no_key_error :
  csv_reader COMMA (universal_newlines chunk_text) = Some chunk_rows /\
  out_of_range ["3"; "x"] 5 /\
  (sort_file "./.tmp/split0.csv" [5] COMMA chunk_fs).2 = Raise IndexError /\
  (sort_file "./.tmp/split0.csv" [5] COMMA chunk_fs).2 <> Raise KeyError.
Proof.
  split; [vm_compute; reflexivity|]. split; [right; simpl; lia|].
  split; [vm_compute; reflexivity|]. vm_compute. discriminate.
Qed.

(** Two merges over the same names, of files that differ, with other
    keys, header and delimiter: both write to the one path. *)
Lemma merge_files_output_name_witness :
  let files := tmp_paths ["a.csv"; "b.csv"] in
  let p := "./.tmp/d41d8cd98f00b204e9800998ecf8427e.csv" in
  let s2 := mkfs ∅ (Some {[ "a.csv" := "1" +:+ NL; "b.csv" := "2" +:+ NL ]}) in
  written semi_fs (merge_files constant_digest files [0] None SEMI semi_fs).1 p /\
  written s2 (merge_files constant_digest files [1] (Some ["h"]) COMMA s2).1 p /\
  p = merge_name constant_digest files /\ p = p.
Proof.
  intros files p s2.
  assert (written semi_fs
            (merge_files constant_digest files [0] None SEMI semi_fs).1 p) as W1.
  { split; [vm_compute; eexists; reflexivity|vm_compute; discriminate]. }
  assert (written s2
            (merge_files constant_digest files [1] (Some ["h"]) COMMA s2).1 p)
    as W2.
  { split; [vm_compute; eexists; reflexivity|vm_compute; discriminate]. }
  split; [exact W1|]. split; [exact W2|].
  exact (merge_files_output_name constant_digest files [0] None SEMI semi_fs
           [1] (Some ["h"]) COMMA s2 p p W1 W2).
Defined.

Lemma merge_files_reads_with_commas_witness :
  merge_files constant_digest (tmp_paths ["a.csv"; "b.csv"]) [1] None SEMI
    semi_fs
  = (mkfs ∅ (Some (<[merge_entry constant_digest ["a.csv"; "b.csv"] := ""]>
                     semi_dir)),
     Raise IndexError).
Proof.
  refine (proj1 (proj2 (merge_files_reads_with_commas constant_digest _))).
  intros H. apply elem_of_cons in H as [H|H]; [discriminate H|].
  apply elem_of_cons in H as [H|H]; [discriminate H|].
  by apply elem_of_nil in H.
Defined.

Lemma external_sort_empty_input_fails_witness :
  external_sort constant_digest listing_order 1 "in.csv" [0] 2 2 100 true
    COMMA false (mkfs {[ "in.csv" := "" ]} None)
  = Some (mkfs {[ "in.csv" := "" ]} (Some ∅), Raise AttributeError) /\
  external_sort constant_digest listing_order 1 "in.csv" [0] 2 2 100 true
    COMMA false (mkfs {[ "in.csv" := "a,b" +:+ NL ]} None)
  = Some (mkfs {[ "in.csv" := "a,b" +:+ NL ]} (Some ∅), Raise IndexError).
Proof.
  split.
  - refine (proj1 (external_sort_empty_input_fails constant_digest listing_order
                     listing_order_perm 1 "in.csv" [0] 2 2 100 true COMMA false
                     (mkfs {[ "in.csv" := "" ]} None) "" "" eq_refl _) eq_refl).
    vm_compute. reflexivity.
  - refine (proj2 (external_sort_empty_input_fails constant_digest listing_order
                     listing_order_perm 1 "in.csv" [0] 2 2 100 true COMMA false
                     (mkfs {[ "in.csv" := "a,b" +:+ NL ]} None) ("a,b" +:+ NL)
                     ("a,b" +:+ NL) eq_refl _) eq_refl _).
    + vm_compute. reflexivity.
    + lia.
Defined.

Lemma external_sort_single_chunk_drops_header_witness :
  exists s' out,
    external_sort constant_digest listing_order 1 "in.csv" [0] 2 2 100 true
      COMMA false spec_fs = Some (s', Ok tt) /\
    fs_lookup s' "in_sorted.csv" = Some out /\
    head (readlines spec_input) = Some ("a,b" +:+ NL) /\
    head (readlines out) = Some ("3,x" +:+ NL) /\
    ("a,b" +:+ NL) ∉ readlines out.
Proof.
  exact (external_sort_single_chunk_drops_header constant_digest listing_order
           listing_order_perm 1).
Defined.

Lemma external_sort_output_not_sorted_witness :
  exists s1 out1 s2 out2,
    external_sort constant_digest listing_order 1 "in.csv" [0] 2 2 100
      true COMMA false spec_fs = Some (s1, Ok tt) /\
    fs_lookup s1 "in_sorted.csv" = Some out1 /\
    csv_reader COMMA (universal_newlines out1)
    = Some [["3"; "x"]; ["1"; "y"]; ["2"; "z"]] /\
    external_sort constant_digest listing_order 1 "in.csv" [0] 2 2
      (8 # 1048576) true COMMA false spec_fs = Some (s2, Ok tt) /\
    fs_lookup s2 "in_sorted.csv" = Some out2 /\
    csv_reader COMMA (universal_newlines out2)
    = Some [["a"; "b"]; ["2"; "z"]; ["3"; "x"]; ["1"; "y"]] /\
    sort_func [0] ["3"; "x"] = Ok ["3"] /\
    sort_func [0] ["1"; "y"] = Ok ["1"] /\
    key_le ["3"] ["1"] = false /\
    ~ row_le [0] ["3"; "x"] ["1"; "y"].
Proof.
  exact (external_sort_output_not_sorted constant_digest listing_order
           listing_order_perm constant_digest_length 0).
Defined.

Lemma external_sort_splits_quoted_record_witness :
  exists s' out,
    external_sort constant_digest listing_order 1 "in.csv" [0] 2 2
      (3 # 1048576) true COMMA false multiline_fs = Some (s', Ok tt) /\
    fs_lookup s' "in_sorted.csv" = Some out /\
    csv_reader COMMA (universal_newlines multiline_input)
    = Some [["k"; "v"]; ["x" +:+ NL +:+ "y"; "1"]] /\
    csv_reader COMMA (universal_newlines out)
    = Some [["k"; "v"]; ["x" +:+ NL]; ["y" +:+ QT; "1"]] /\
    ~ ([["x" +:+ NL]; ["y" +:+ QT; "1"]] ≡ₚ [["x" +:+ NL +:+ "y"; "1"]]).
Proof.
  exact (external_sort_splits_quoted_record constant_digest listing_order
           listing_order_perm constant_digest_length 0).
Defined.


(* ===================================================================== *)
(** ** Further properties: the merge tasks                                *)
(* ===================================================================== *)

Section MergeTasks.

(** The loop of [_build_merge_tasks] from any point: what it has when the
    files are used up. *)
Lemma build_loop_spec n_way files batch tasks batch' tasks' :
  build_loop n_way files batch tasks = (batch', tasks') ->
  (concat tasks' ++ batch' = concat tasks ++ batch ++ files)%list /\
  (Forall (fun t => t <> []) tasks -> Forall (fun t => t <> []) tasks') /\
  (Z.of_nat (length batch) < n_way ->
   Forall (fun t => Z.of_nat (length t) = n_way) tasks ->
   Forall (fun t => Z.of_nat (length t) = n_way) tasks' /\
   Z.of_nat (length batch') < n_way) /\
  (n_way <= 0 -> tasks' = tasks /\ batch' = (batch ++ files)%list).
Proof.
  revert batch tasks. induction files as [|f files IH]; intros batch tasks; simpl.
  - intros [= <- <-]. rewrite app_nil_r. by repeat split.
  - destruct (Z.of_nat (length (batch ++ [f])) =? n_way) eqn:Hfull; intros Hloop;
      destruct (IH _ _ Hloop) as (Hcat & Hne & Hsize & Hnone).
    + apply Z.eqb_eq in Hfull. split; [|split; [|split]].
      * rewrite Hcat, concat_app. simpl. by rewrite !app_nil_r, <- !app_assoc.
      * intros Hall. apply Hne, Forall_app. split; [done|].
        constructor; [by destruct batch|constructor].
      * intros Hlt Hall. apply Hsize; [simpl; lia|].
        apply Forall_app. split; [done|]. by repeat constructor.
      * intros Hle. rewrite length_app in Hfull. simpl in Hfull. lia.
    + apply Z.eqb_neq in Hfull. split; [|split; [|split]].
      * rewrite Hcat. by rewrite <- !app_assoc.
      * done.
      * intros Hlt Hall. apply Hsize; [|done].
        rewrite length_app in *. simpl in *. lia.
      * intros Hle. destruct (Hnone Hle) as [-> ->]. by rewrite <- app_assoc.
Qed.

(** X1. The merge tasks are the files in their order, cut into groups:
    joined again they give the list of files, and no task is empty. *)
Theorem build_merge_tasks_partition files n_way :
  concat (_build_merge_tasks files n_way) = files /\
  Forall (fun t => t <> []) (_build_merge_tasks files n_way).
Proof.
  unfold _build_merge_tasks.
  destruct (build_loop n_way files [] []) as [batch tasks] eqn:Hloop.
  destruct (build_loop_spec _ _ _ _ _ _ Hloop) as (Hcat & Hne & _ & _).
  simpl in Hcat. specialize (Hne (Forall_nil_2 _)).
  destruct batch as [|f batch].
  - by rewrite app_nil_r in Hcat.
  - split.
    + rewrite concat_app. simpl. by rewrite app_nil_r.
    + apply Forall_app. split; [done|]. by repeat constructor.
Qed.

(** X2. For a fan-in of at least one, every task holds exactly [n_way]
    files, but for the last, which may hold fewer and at least one. *)
Theorem build_merge_tasks_fan_in files n_way :
  1 <= n_way ->
  exists full rest,
    _build_merge_tasks files n_way = (full ++ rest)%list /\
    Forall (fun t => Z.of_nat (length t) = n_way) full /\
    (rest = [] \/
     exists t, rest = [t] /\ t <> [] /\ Z.of_nat (length t) < n_way).
Proof.
  intros Hway. unfold _build_merge_tasks.
  destruct (build_loop n_way files [] []) as [batch tasks] eqn:Hloop.
  destruct (build_loop_spec _ _ _ _ _ _ Hloop) as (_ & _ & Hsize & _).
  destruct Hsize as [Hfull Hlast]; [simpl; lia|constructor|].
  destruct batch as [|f batch].
  - exists tasks, []. rewrite app_nil_r. split; [done|]. split; [done|]. by left.
  - exists tasks, [f :: batch]. split; [done|]. split; [done|]. right.
    by exists (f :: batch).
Qed.

(** X3. A fan-in of zero or less is no bound: all the files go to one
    task. *)
Theorem build_merge_tasks_unbounded files n_way :
  n_way <= 0 -> files <> [] -> _build_merge_tasks files n_way = [files].
Proof.
  intros Hway Hfiles. unfold _build_merge_tasks.
  destruct (build_loop n_way files [] []) as [batch tasks] eqn:Hloop.
  destruct (build_loop_spec _ _ _ _ _ _ Hloop) as (_ & _ & _ & Hnone).
  destruct (Hnone Hway) as [-> ->]. simpl. by destruct files.
Qed.

End MergeTasks.

Lemma build_merge_tasks_fan_in_witness :
  exists full rest,
    _build_merge_tasks ["a"; "b"; "c"; "d"; "e"] 2 = (full ++ rest)%list /\
    Forall (fun t => Z.of_nat (length t) = 2) full /\
    (rest = [] \/
     exists t, rest = [t] /\ t <> [] /\ Z.of_nat (length t) < 2).
Proof.
  apply (build_merge_tasks_fan_in ["a"; "b"; "c"; "d"; "e"] 2). lia.
Defined.

Lemma build_merge_tasks_unbounded_witness :
  _build_merge_tasks ["a"; "b"; "c"] (-1) = [["a"; "b"; "c"]].
Proof.
  apply (build_merge_tasks_unbounded ["a"; "b"; "c"] (-1)); [lia|discriminate].
Defined.

(* ===================================================================== *)
(** ** Further properties: what a run leaves alone                        *)
(* ===================================================================== *)

Section Steps.

(** A relation between the file system before and after, kept by every
    step, is kept by their sequence. *)
Variable R : fs -> fs -> Prop.
Hypothesis R_refl : forall s, R s s.
Hypothesis R_trans : forall s1 s2 s3, R s1 s2 -> R s2 s3 -> R s1 s3.

Lemma step_bind {A B} (m : M A) (k : A -> M B) s :
  R s (m s).1 -> (forall a s', R s' (k a s').1) -> R s (bind m k s).1.
Proof.
  intros Hm Hk. unfold bind. destruct (m s) as [s1 [a|e]]; simpl in *; [|done].
  eapply R_trans; [exact Hm|apply Hk].
Qed.

Lemma step_forM {A} (f : A -> M unit) (P : A -> Prop) l s :
  (forall x s', P x -> R s' (f x s').1) -> Forall P l -> R s (forM_ f l s).1.
Proof.
  intros Hf Hall. revert s. induction Hall as [|x l Hx _ IH]; intros s; simpl.
  - apply R_refl.
  - apply step_bind; [by apply Hf|]. intros _ s'. apply IH.
Qed.

End Steps.

Section KeepsOutside.

Implicit Types (s : fs).

Lemma keeps_outside_refl s : keeps_outside s s.
Proof. by split. Qed.

Lemma keeps_outside_trans s1 s2 s3 :
  keeps_outside s1 s2 -> keeps_outside s2 s3 -> keeps_outside s1 s3.
Proof. intros [H1 H1'] [H2 H2']. split; [congruence|auto]. Qed.

Lemma keeps_outside_open_w p s : in_workspace p -> keeps_outside s (open_w p s).1.
Proof.
  intros [name Hp]. unfold open_w. rewrite Hp.
  destruct (tmp s) as [d|] eqn:Hd; simpl; [|apply keeps_outside_refl].
  split; simpl; eauto.
Qed.

Lemma keeps_outside_write p txt s :
  in_workspace p -> keeps_outside s (write p txt s).1.
Proof.
  intros [name Hp]. unfold write. rewrite Hp.
  destruct (tmp s) as [d|] eqn:Hd; simpl; [|apply keeps_outside_refl].
  split; simpl; eauto.
Qed.

Lemma keeps_outside_remove p s : in_workspace p -> keeps_outside s (remove p s).1.
Proof.
  intros [name Hp]. unfold remove.
  destruct (fs_lookup s p); simpl; [|apply keeps_outside_refl].
  rewrite Hp. split; simpl; [done|]. intros [d ->]. simpl. eauto.
Qed.

Lemma in_workspace_split_name n : in_workspace (split_name n).
Proof. rewrite split_name_tmp. unfold in_workspace. rewrite in_tmp_prefix. eauto. Qed.

Lemma in_workspace_merge_name md5_hexdigest files :
  in_workspace (merge_name md5_hexdigest files).
Proof.
  unfold in_workspace, merge_name.
  change ("./.tmp/" +:+ md5_hexdigest (join "" files) +:+ ".csv")
    with (tmp_prefix +:+ (md5_hexdigest (join "" files) +:+ ".csv")).
  rewrite in_tmp_prefix. eauto.
Qed.

(** The body of the reading loop writes to chunk files only. *)
Lemma keeps_outside_split_row max_size header st row s :
  open_in_workspace st ->
  keeps_outside s (split_row max_size header st row s).1 /\
  forall st', (split_row max_size header st row s).2 = Ok st' ->
    open_in_workspace st'.
Proof.
  intros Hst. unfold split_row.
  destruct (header && negb (truthy (header_cols st))).
  { split; [apply keeps_outside_refl|]. by intros st' [= <-]. }
  unfold open_chunk, open_in_workspace in *.
  destruct (write_file st) as [f|] eqn:Hwf.
  - rewrite bind_ret_l. destruct (reached max_size (data st +:+ row)).
    + rewrite Hwf. split.
      * apply (step_bind keeps_outside keeps_outside_trans);
          [by apply keeps_outside_write|]. intros _ s'. apply keeps_outside_refl.
      * unfold bind, ret. destruct (write f _ s) as [s1 [[]|e]]; [|done].
        by intros st' [= <-].
    + split; [apply keeps_outside_refl|]. intros st' [= <-]. simpl. by rewrite Hwf.
  - pose proof (keeps_outside_open_w (split_name (file_num st)) s
                  (in_workspace_split_name _)) as Hopen.
    unfold bind at 1 2 3. unfold bind at 1 2.
    destruct (open_w (split_name (file_num st)) s) as [s1 [[]|e]]; simpl in *;
      [|split; [done|by intros ?]].
    destruct (reached max_size (data st +:+ row)); simpl.
    + pose proof (keeps_outside_write (split_name (file_num st))
                    (data st +:+ row) s1 (in_workspace_split_name _)) as Hw.
      unfold bind, ret.
      destruct (write (split_name (file_num st)) _ s1) as [s2 [[]|e]];
        simpl in *.
      * split; [by eapply keeps_outside_trans|]. by intros st' [= <-].
      * split; [by eapply keeps_outside_trans|]. by intros ?.
    + split; [done|]. intros st' [= <-]. simpl. apply in_workspace_split_name.
Qed.

Lemma keeps_outside_split_loop max_size header lines st s :
  open_in_workspace st ->
  keeps_outside s (foldM (split_row max_size header) lines st s).1 /\
  forall st', (foldM (split_row max_size header) lines st s).2 = Ok st' ->
    open_in_workspace st'.
Proof.
  revert st s. induction lines as [|row lines IH]; intros st s Hst; simpl.
  - split; [apply keeps_outside_refl|]. by intros st' [= <-].
  - destruct (keeps_outside_split_row max_size header st row s Hst) as [Hk Ho].
    unfold bind.
    destruct (split_row max_size header st row s) as [s1 [st1|e]]; simpl in *;
      [|split; [done|by intros ?]].
    destruct (IH st1 s1 (Ho _ eq_refl)) as [Hk' Ho'].
    split; [by eapply keeps_outside_trans|done].
Qed.

(** The partitioner after [os.makedirs]: reading and writing chunks. *)
Lemma keeps_outside_create_tail max_size header file_loc s :
  keeps_outside s
    ((text <- read_text file_loc ;;
      st <- foldM (split_row max_size header) (readlines text)
              (mksplit "" 0 [] None None) ;;
      match write_file st with
      | Some f => write f (data st)
      | None => ret tt
      end ;;;
      ret (temp_files st, header_cols st)) s).1.
Proof.
  apply (step_bind keeps_outside keeps_outside_trans).
  { unfold read_text. destruct (fs_lookup s file_loc); apply keeps_outside_refl. }
  intros text s2. unfold bind at 1.
  destruct (keeps_outside_split_loop max_size header (readlines text)
              (mksplit "" 0 [] None None) s2 I) as [Hk Ho].
  destruct (foldM _ _ _ s2) as [s3 [st|e]]; simpl in *; [|done].
  specialize (Ho _ eq_refl). unfold open_in_workspace in Ho.
  eapply keeps_outside_trans; [exact Hk|].
  apply (step_bind keeps_outside keeps_outside_trans).
  - destruct (write_file st); [by apply keeps_outside_write|apply keeps_outside_refl].
  - intros _ s4. apply keeps_outside_refl.
Qed.

(** The partitioner changes nothing outside the workspace. *)
Lemma keeps_outside_create_temp_files file_loc max_size header s :
  keeps_outside s (create_temp_files file_loc max_size header s).1.
Proof.
  unfold create_temp_files.
  apply (step_bind keeps_outside keeps_outside_trans).
  { unfold makedirs_tmp. destruct (tmp s); simpl; [apply keeps_outside_refl|].
    split; simpl; eauto. }
  intros _ s1. apply keeps_outside_create_tail.
Qed.

(** After the partitioner the workspace is there, whether it was made now
    or found, and whether the partitioner failed or not. *)
Lemma create_temp_files_workspace file_loc max_size header s :
  is_Some (tmp (create_temp_files file_loc max_size header s).1).
Proof.
  destruct (tmp s) as [d|] eqn:Hd.
  - apply (keeps_outside_create_temp_files file_loc max_size header s).
    rewrite Hd. eauto.
  - unfold create_temp_files. unfold bind at 1. unfold makedirs_tmp. rewrite Hd.
    apply (keeps_outside_create_tail max_size header file_loc
             (mkfs (files s) (Some ∅))). simpl. eauto.
Qed.

End KeepsOutside.

(* ===================================================================== *)
(** ** Further properties: the name of the result                         *)
(* ===================================================================== *)

Section SortedName.

Lemma split_no_sep sep s : has_char sep s = false -> split sep s = [s].
Proof.
  induction s as [|a s IH]; simpl; [done|].
  destruct (Ascii.eqb a sep); [done|]. simpl. intros H. by rewrite IH.
Qed.

Lemma split_not_nil sep s : split sep s <> [].
Proof.
  destruct s as [|a s]; simpl; [done|].
  destruct (Ascii.eqb a sep); [done|]. by destruct (split sep s).
Qed.

(** Splitting at the last separator: the part after it is the last
    field. *)
Lemma split_last_sep sep a b :
  has_char sep b = false ->
  split sep (a +:+ String sep b) = (split sep a ++ [b])%list.
Proof.
  intros Hb. induction a as [|c a IH].
  - change ("" +:+ String sep b) with (String sep b). simpl.
    by rewrite Ascii.eqb_refl, split_no_sep.
  - rewrite string_app_cons. simpl. destruct (Ascii.eqb c sep).
    + by rewrite IH.
    + rewrite IH. pose proof (split_not_nil sep a) as Hne.
      by destruct (split sep a).
Qed.

(** Joining the fields again with the separator gives the text back. *)
Lemma join_split sep s : join (String sep "") (split sep s) = s.
Proof.
  induction s as [|c s IH]; simpl; [done|].
  pose proof (split_not_nil sep s) as Hne.
  destruct (Ascii.eqb_spec c sep) as [->|Hc].
  - destruct (split sep s) as [|f fs] eqn:Hs; [done|].
    change (join (String sep "") ("" :: f :: fs))
      with ("" +:+ String sep "" +:+ join (String sep "") (f :: fs)).
    by rewrite IH.
  - destruct (split sep s) as [|f fs] eqn:Hs; [done|].
    destruct fs as [|g fs].
    + simpl in *. by rewrite IH.
    + change (join (String sep "") (String c f :: g :: fs))
        with (String c f +:+ String sep "" +:+ join (String sep "") (g :: fs)).
      change (join (String sep "") (f :: g :: fs))
        with (f +:+ String sep "" +:+ join (String sep "") (g :: fs)) in IH.
      by rewrite string_app_cons, IH.
Qed.

Lemma last_snoc {A} (l : list A) x d : List.last (l ++ [x]) d = x.
Proof. induction l as [|y l IH]; [done|]. simpl. by destruct (l ++ [x])%list eqn:H; [destruct l|]. Qed.

(** A text in which [c] occurs has a last occurrence of it. *)
Lemma has_char_last c s :
  has_char c s = true ->
  exists a b, s = a +:+ String c b /\ has_char c b = false.
Proof.
  induction s as [|x s IH]; simpl; [done|].
  destruct (has_char c s) eqn:Hs.
  - intros _. destruct (IH eq_refl) as (a & b & -> & Hb).
    exists (String x a), b. by rewrite string_app_cons.
  - rewrite orb_false_r. intros ->%Ascii.eqb_eq. by exists "", s.
Qed.

Lemma sorted_name_dot a b :
  has_char DOT b = false ->
  sorted_name (a +:+ "." +:+ b) false = a +:+ "_sorted." +:+ b.
Proof.
  intros Hb. unfold sorted_name.
  change ("." +:+ b) with (String DOT b).
  rewrite (split_last_sep DOT a b Hb), last_snoc, removelast_last.
  change "." with (String DOT "").
  by rewrite (join_split DOT a).
Qed.

Lemma sorted_name_no_dot file_loc :
  has_char DOT file_loc = false ->
  sorted_name file_loc false = "_sorted." +:+ file_loc.
Proof. intros Hf. unfold sorted_name. by rewrite (split_no_sep DOT _ Hf). Qed.

(** The result never has the name of the source. *)
Lemma sorted_name_differs file_loc : sorted_name file_loc false <> file_loc.
Proof.
  intros Heq. apply (f_equal String.length) in Heq.
  destruct (has_char DOT file_loc) eqn:Hdot.
  - destruct (has_char_last _ _ Hdot) as (a & b & -> & Hb).
    change (String DOT b) with ("." +:+ b) in Heq.
    rewrite (sorted_name_dot a b Hb) in Heq.
    rewrite !string_length_app in Heq. simpl in Heq. lia.
  - rewrite (sorted_name_no_dot _ Hdot) in Heq.
    rewrite string_length_app in Heq. simpl in Heq. lia.
Qed.

(** X12. Without [overwrite] the result is named by putting [_sorted]
    before the last dot of the whole path, wherever that dot is; for a
    path without a dot the name is [_sorted.] followed by the path. *)
Theorem sorted_name_last_dot file_loc :
  (forall a b, file_loc = a +:+ "." +:+ b -> has_char DOT b = false ->
     sorted_name file_loc false = a +:+ "_sorted." +:+ b) /\
  (has_char DOT file_loc = false ->
     sorted_name file_loc false = "_sorted." +:+ file_loc).
Proof.
  split.
  - intros a b -> Hb. by apply sorted_name_dot.
  - apply sorted_name_no_dot.
Qed.

End SortedName.

Lemma sorted_name_last_dot_witness :
  sorted_name "./data/in" false = "_sorted./data/in" /\
  sorted_name "data" false = "_sorted.data".
Proof.
  split.
  - apply (proj1 (sorted_name_last_dot "./data/in") "" "/data/in"); reflexivity.
  - apply (proj2 (sorted_name_last_dot "data")). reflexivity.
Defined.

(* ===================================================================== *)
(** ** Further properties: the whole run                                  *)
(* ===================================================================== *)

Section WholeRun.

Variable md5_hexdigest : string -> string.
Variable listdir_order : list string -> list string.

Implicit Types (s : fs).

Lemma keeps_outside_merge_files files sort_keys header delimiter s :
  Forall in_workspace files ->
  keeps_outside s (merge_files md5_hexdigest files sort_keys header delimiter s).1.
Proof.
  intros Hfiles. unfold merge_files.
  pose proof (in_workspace_merge_name md5_hexdigest files) as Hout.
  apply (step_bind keeps_outside keeps_outside_trans);
    [by apply keeps_outside_open_w|]. intros _ s1.
  apply (step_bind keeps_outside keeps_outside_trans).
  { destruct (header_given header);
      [by apply keeps_outside_write|apply keeps_outside_refl]. }
  intros _ s2. apply (step_bind keeps_outside keeps_outside_trans).
  { rewrite heap_init_state. apply keeps_outside_refl. }
  intros h s3.
  destruct (heap_drain (S (heap_size h)) (sort_func sort_keys) h) as [rows err].
  apply (step_bind keeps_outside keeps_outside_trans).
  { apply (step_forM keeps_outside keeps_outside_refl keeps_outside_trans _
             (fun _ => True)); [|by apply Forall_true].
    intros r s' _. by apply keeps_outside_write. }
  intros _ s4. apply (step_bind keeps_outside keeps_outside_trans).
  { destruct err; apply keeps_outside_refl. }
  intros _ s5.
  apply (step_forM keeps_outside keeps_outside_refl keeps_outside_trans _
           in_workspace); [|done].
  intros f s' Hf. by apply keeps_outside_remove.
Qed.

Lemma in_workspace_listed (names : list string) :
  Forall in_workspace ((fun f => "./.tmp/" +:+ f) <$> names).
Proof.
  apply Forall_fmap, Forall_true. intros f. simpl.
  change ("./.tmp/" +:+ f) with (tmp_prefix +:+ f).
  unfold in_workspace. rewrite in_tmp_prefix. eauto.
Qed.

(** The tasks hold no file that was not listed. *)
Lemma build_merge_tasks_elem files n_way t f :
  t ∈ _build_merge_tasks files n_way -> f ∈ t -> f ∈ files.
Proof.
  intros Ht Hf.
  assert (f ∈ concat (_build_merge_tasks files n_way)) as Hin.
  { apply list_elem_of_In, in_concat. exists t.
    split; by apply list_elem_of_In. }
  unfold _build_merge_tasks in Hin.
  destruct (build_loop n_way files [] []) as [batch tasks] eqn:Hloop.
  destruct (build_loop_spec _ _ _ _ _ _ Hloop) as (Hcat & _). simpl in Hcat.
  rewrite <- Hcat. destruct batch as [|g batch].
  - rewrite app_nil_r. done.
  - rewrite concat_app in Hin. simpl in Hin. by rewrite app_nil_r in Hin.
Qed.

Lemma keeps_outside_merge_round sort_keys n_proc n_way header_row s :
  keeps_outside s
    (merge_round md5_hexdigest listdir_order sort_keys n_proc n_way header_row s).1.
Proof.
  unfold merge_round.
  apply (step_bind keeps_outside keeps_outside_trans).
  { unfold Pool. destruct (n_proc <? 1); apply keeps_outside_refl. }
  intros _ s1. apply (step_bind keeps_outside keeps_outside_trans).
  { unfold listdir_tmp. destruct (tmp s1); apply keeps_outside_refl. }
  intros names s2.
  apply (step_forM keeps_outside keeps_outside_refl keeps_outside_trans _
           (Forall in_workspace)).
  - intros task s' Htask. unfold apply_async. simpl.
    by apply keeps_outside_merge_files.
  - apply Forall_forall. intros t Ht.
    apply list_elem_of_In, in_rev, list_elem_of_In in Ht.
    apply Forall_forall. intros f Hf.
    pose proof (build_merge_tasks_elem _ _ _ _ Ht Hf) as Hin.
    by apply (proj1 (Forall_forall _ _) (in_workspace_listed names)).
Qed.

Lemma keeps_outside_merge_rounds fuel sort_keys n_proc n_way header_row s s' r :
  merge_rounds md5_hexdigest listdir_order fuel sort_keys n_proc n_way
    header_row s = Some (s', r) ->
  keeps_outside s s'.
Proof.
  revert s. induction fuel as [|fuel IH]; intros s; simpl.
  - unfold listdir_tmp. destruct (tmp s) as [d|]; [|by intros [= <- _]; apply keeps_outside_refl].
    destruct (1 <? length _)%nat; [done|]. intros [= <- _]. apply keeps_outside_refl.
  - unfold listdir_tmp. destruct (tmp s) as [d|] eqn:Hd;
      [|by intros [= <- _]; apply keeps_outside_refl].
    destruct (1 <? length _)%nat;
      [|by intros [= <- _]; apply keeps_outside_refl].
    pose proof (keeps_outside_merge_round sort_keys n_proc n_way header_row s)
      as Hround.
    destruct (merge_round _ _ _ _ _ _ s) as [s1 [[]|e]]; simpl in Hround.
    + intros Hrest. eapply keeps_outside_trans; [exact Hround|by eapply IH].
    + by intros [= <- _].
Qed.

(** The sorts change nothing: after them the files are as the partitioner
    left them. *)
Lemma partition_and_sort_state file_loc sort_keys n_proc max_size header
  delimiter s :
  (partition_and_sort file_loc sort_keys n_proc max_size header delimiter s).1
  = (create_temp_files file_loc max_size header s).1.
Proof.
  unfold partition_and_sort. unfold bind at 1.
  destruct (create_temp_files file_loc max_size header s) as [s1 [r|e]];
    [|done].
  simpl. unfold bind at 1. destruct r.2 as [h|]; [|done].
  unfold ret at 1. unfold bind at 1, Pool.
  destruct (n_proc <? 1); [done|]. unfold ret at 1.
  unfold bind. by rewrite sort_dispatch_noop.
Qed.

(** The last steps: what they leave when they fail, and when they do
    not. *)
Lemma finalize_outcome file_loc overwrite s s' r :
  finalize listdir_order file_loc overwrite s = (s', r) ->
  let dst := sorted_name file_loc overwrite in
  (forall q, q <> dst -> files s' !! q = files s !! q) /\
  match r with
  | Ok _ => tmp s' = None /\ in_tmp dst = None /\ is_Some (files s' !! dst)
  | Raise _ => is_Some (tmp s) -> is_Some (tmp s')
  end.
Proof.
  intros Hfin dst. unfold finalize, bind, listdir_tmp, lift in Hfin.
  fold dst in Hfin.
  destruct (tmp s) as [d|] eqn:Hd; [|by simplify_eq].
  destruct (index (listdir_order (map_to_list d).*1) 0) as [first|e];
    [|simplify_eq; split; [done|]; by rewrite Hd].
  unfold rename in Hfin.
  destruct (fs_lookup s ("./.tmp/" +:+ first)) as [c|] eqn:Hsrc;
    [|simplify_eq; split; [done|]; by rewrite Hd].
  change ("./.tmp/" +:+ first) with (tmp_prefix +:+ first) in *.
  rewrite (fs_lookup_tmp _ d) in Hsrc by done.
  rewrite Hd in Hfin.
  assert (bind (remove (tmp_prefix +:+ first))
            (fun _ => bind (open_w dst) (fun _ => write dst c)) s
          = match in_tmp dst with
            | Some n => (mkfs (files s)
                           (Some (<[n := "" +:+ c]> (<[n := ""]> (delete first d)))),
                         Ok tt)
            | None => (mkfs (<[dst := c]> (files s)) (Some (delete first d)), Ok tt)
            end) as Hmove.
  { unfold bind. rewrite (remove_tmp _ d _ c) by done.
    unfold open_w, write. destruct (in_tmp dst) as [n|]; simpl.
    - by rewrite lookup_insert_eq.
    - by rewrite lookup_insert_eq, insert_insert_eq. }
  destruct (in_tmp dst) as [n|] eqn:Hdst.
  - rewrite Hmove in Hfin. unfold rmdir_tmp in Hfin. simpl in Hfin.
    destruct (map_to_list _) as [|x l] eqn:Hlist.
    { apply map_to_list_empty_iff in Hlist.
      apply (f_equal (fun m => m !! n)) in Hlist.
      by rewrite lookup_insert_eq, lookup_empty in Hlist. }
    simplify_eq. simpl. split; [done|]. eauto.
  - rewrite Hmove in Hfin. unfold rmdir_tmp in Hfin. simpl in Hfin.
    destruct (map_to_list (delete first d)); simplify_eq; simpl.
    + split; [by intros q Hq; rewrite lookup_insert_ne|].
      split; [done|]. split; [done|]. rewrite lookup_insert_eq. eauto.
    + split; [by intros q Hq; rewrite lookup_insert_ne|]. eauto.
Qed.


(** The outcome of a run, step by step: the state the partitioner leaves,
    the state the merging loop leaves, and the outcome of the last steps
    if they are reached. *)
Lemma external_sort_steps fuel file_loc sort_keys n_proc n_way max_size header
  delimiter overwrite s s' r :
  external_sort md5_hexdigest listdir_order fuel file_loc sort_keys n_proc
    n_way max_size header delimiter overwrite s = Some (s', r) ->
  let s1 := (create_temp_files file_loc max_size header s).1 in
  (exists e, r = Raise e /\ keeps_outside s1 s') \/
  (exists s2, keeps_outside s1 s2 /\
              finalize listdir_order file_loc overwrite s2 = (s', r)).
Proof.
  intros Hrun s1. unfold external_sort in Hrun.
  pose proof (partition_and_sort_state file_loc sort_keys n_proc max_size
                header delimiter s) as Hs1. fold s1 in Hs1.
  destruct (partition_and_sort _ _ _ _ _ _ s) as [s1' [header_row|e]];
    simpl in Hs1; subst s1'.
  - destruct (merge_rounds _ _ _ _ _ _ _ s1) as [[s2 [[]|e]]|] eqn:Hrounds;
      [| |done].
    + right. exists s2. split; [by eapply keeps_outside_merge_rounds|].
      by injection Hrun.
    + left. injection Hrun as <- <-. exists e.
      split; [done|]. by eapply keeps_outside_merge_rounds.
  - left. injection Hrun as <- <-. exists e. split; [done|].
    apply keeps_outside_refl.
Qed.

(** X13. A run that raises leaves the workspace [./.tmp] behind, whatever
    it raised and wherever; and with the workspace there, every later run,
    with whatever arguments, raises FileExistsError at once and changes
    nothing. *)
Theorem external_sort_failure_blocks_next_run fuel file_loc sort_keys n_proc
  n_way max_size header delimiter overwrite s s' e :
  external_sort md5_hexdigest listdir_order fuel file_loc sort_keys n_proc
    n_way max_size header delimiter overwrite s = Some (s', Raise e) ->
  is_Some (tmp s') /\
  forall md5' order' fuel' file_loc' sort_keys' n_proc' n_way' max_size'
         header' delimiter' overwrite',
    external_sort md5' order' fuel' file_loc' sort_keys' n_proc' n_way'
      max_size' header' delimiter' overwrite' s'
    = Some (s', Raise FileExistsError).
Proof.
  intros Hrun.
  assert (is_Some (tmp s')) as Htmp.
  { pose proof (create_temp_files_workspace file_loc max_size header s) as Hws.
    destruct (external_sort_steps _ _ _ _ _ _ _ _ _ _ _ _ Hrun)
      as [(e' & _ & [_ Hk])|(s2 & [_ Hk] & Hfin)]; [auto|].
    destruct (finalize_outcome _ _ _ _ _ Hfin) as [_ Hraise]. auto. }
  split; [done|]. intros md5' order' fuel' file_loc' sort_keys' n_proc' n_way'
    max_size' header' delimiter' overwrite'.
  unfold external_sort, partition_and_sort, create_temp_files.
  unfold bind at 1 2 3. unfold makedirs_tmp. by destruct Htmp as [d ->].
Qed.

(** X14. A run that ends without an exception has removed the workspace,
    and the result is there, under a name outside the workspace. *)
Theorem external_sort_success_cleans_up fuel file_loc sort_keys n_proc n_way
  max_size header delimiter overwrite s s' :
  external_sort md5_hexdigest listdir_order fuel file_loc sort_keys n_proc
    n_way max_size header delimiter overwrite s = Some (s', Ok tt) ->
  tmp s' = None /\
  in_tmp (sorted_name file_loc overwrite) = None /\
  is_Some (fs_lookup s' (sorted_name file_loc overwrite)).
Proof.
  intros Hrun.
  destruct (external_sort_steps _ _ _ _ _ _ _ _ _ _ _ _ Hrun)
    as [(e & He & _)|(s2 & _ & Hfin)]; [done|].
  destruct (finalize_outcome _ _ _ _ _ Hfin) as [_ (Hws & Hdst & Hres)].
  split; [done|]. split; [done|]. unfold fs_lookup. by rewrite Hdst.
Qed.

(** X15. Whatever the outcome, a run changes no file outside the
    workspace but the result file; without [overwrite] the source is as it
    was. *)
Theorem external_sort_keeps_other_files fuel file_loc sort_keys n_proc n_way
  max_size header delimiter overwrite s s' r :
  external_sort md5_hexdigest listdir_order fuel file_loc sort_keys n_proc
    n_way max_size header delimiter overwrite s = Some (s', r) ->
  (forall q, in_tmp q = None -> q <> sorted_name file_loc overwrite ->
     fs_lookup s' q = fs_lookup s q) /\
  (overwrite = false -> in_tmp file_loc = None ->
     fs_lookup s' file_loc = fs_lookup s file_loc).
Proof.
  intros Hrun.
  assert (forall q, in_tmp q = None -> q <> sorted_name file_loc overwrite ->
            fs_lookup s' q = fs_lookup s q) as Hframe.
  { intros q Hq Hne. unfold fs_lookup. rewrite Hq.
    destruct (keeps_outside_create_temp_files file_loc max_size header s)
      as [Hf1 _].
    destruct (external_sort_steps _ _ _ _ _ _ _ _ _ _ _ _ Hrun)
      as [(e & _ & [Hf _])|(s2 & [Hf _] & Hfin)].
    - by rewrite Hf, Hf1.
    - destruct (finalize_outcome _ _ _ _ _ Hfin) as [Hfr _].
      by rewrite Hfr, Hf, Hf1. }
  split; [done|]. intros -> Hsrc. apply Hframe; [done|].
  intros Heq. by apply (sorted_name_differs file_loc).
Qed.

End WholeRun.

Lemma external_sort_failure_blocks_next_run_witness :
  is_Some (tmp (mkfs ∅ (Some ∅))) /\
  external_sort constant_digest listing_order 1 "in.csv" [0] 2 2 100 true
    COMMA false (mkfs ∅ (Some ∅))
  = Some (mkfs ∅ (Some ∅), Raise FileExistsError).
Proof.
  destruct (external_sort_failure_blocks_next_run constant_digest listing_order
              1 "missing.csv" [0] 2 2 100 true COMMA false (mkfs ∅ None)
              (mkfs ∅ (Some ∅)) FileNotFoundError) as [H1 H2].
  { vm_compute. reflexivity. }
  split; [exact H1|]. apply H2.
Defined.

Lemma external_sort_success_cleans_up_witness :
  tmp (mkfs {[ "in.csv" := spec_input; "in_sorted.csv" := spec_data ]} None)
  = None /\
  in_tmp (sorted_name "in.csv" false) = None /\
  is_Some (fs_lookup
             (mkfs {[ "in.csv" := spec_input; "in_sorted.csv" := spec_data ]}
                None)
             (sorted_name "in.csv" false)).
Proof.
  apply (external_sort_success_cleans_up constant_digest listing_order 1
           "in.csv" [0] 2 2 100 true COMMA false spec_fs).
  vm_compute. reflexivity.
Defined.

Lemma external_sort_keeps_other_files_witness :
  fs_lookup
    (mkfs {[ "in.csv" := spec_input; "in_sorted.csv" := spec_data ]} None)
    "in.csv"
  = fs_lookup spec_fs "in.csv".
Proof.
  refine (proj2 (external_sort_keeps_other_files constant_digest listing_order 1
                   "in.csv" [0] 2 2 100 true COMMA false spec_fs _ (Ok tt) _)
            eq_refl eq_refl).
  vm_compute. reflexivity.
Defined.

(* ===================================================================== *)
(** ** What a merge changes                                               *)
(* ===================================================================== *)

Ltac distinct_names :=
  repeat (apply NoDup_cons; split;
          [let H := fresh in
           intros H;
           repeat (apply elem_of_cons in H as [H|H]; [discriminate H|]);
           by apply elem_of_nil in H|]);
  apply NoDup_nil_2.

Ltac not_among :=
  let H := fresh in
  intros H;
  repeat (apply elem_of_cons in H as [H|H]; [discriminate H|]);
  by apply elem_of_nil in H.

Section ChangesOnly.

Implicit Types (s : fs) (P : string -> Prop).

Lemma changes_only_refl P s : changes_only P s s.
Proof. by intros q _. Qed.

Lemma changes_only_trans P s1 s2 s3 :
  changes_only P s1 s2 -> changes_only P s2 s3 -> changes_only P s1 s3.
Proof. intros H12 H23 q Hq. by rewrite H23, H12. Qed.

Lemma changes_only_open_w P p s : P p -> changes_only P s (open_w p s).1.
Proof.
  intros Hp. destruct (open_w p s) as [s' [[]|e]] eqn:Ho; simpl.
  - intros q Hq. rewrite (fs_lookup_open_w _ q _ _ _ Ho).
    rewrite decide_False; [done|]. by intros ->.
  - apply open_w_Raise in Ho as ->. apply changes_only_refl.
Qed.

Lemma changes_only_write P p txt s : P p -> changes_only P s (write p txt s).1.
Proof.
  intros Hp. destruct (write p txt s) as [s' [[]|e]] eqn:Hw; simpl.
  - intros q Hq. rewrite (fs_lookup_write _ q _ _ _ _ Hw).
    rewrite decide_False; [done|]. by intros ->.
  - apply write_Raise in Hw as ->. apply changes_only_refl.
Qed.

(** [os.remove] takes away the one path. *)
Lemma fs_lookup_remove p q s s' r :
  remove p s = (s', Ok r) ->
  fs_lookup s' q = if decide (q = p) then None else fs_lookup s q.
Proof.
  unfold remove. destruct (fs_lookup s p) as [c|] eqn:Hc; [|done].
  unfold fs_lookup.
  destruct (in_tmp p) as [a|] eqn:Hp; intros [= <- _]; simpl.
  - destruct (in_tmp q) as [b|] eqn:Hq.
    + case_decide as Hpq.
      * subst q. rewrite Hp in Hq. injection Hq as ->.
        destruct (tmp s); simpl; [apply lookup_delete_eq|done].
      * destruct (tmp s); simpl; [|done]. apply lookup_delete_ne. intros ->.
        apply Hpq. eapply in_tmp_inj; eassumption.
    + case_decide as Hpq; [subst q; congruence|reflexivity].
  - destruct (in_tmp q) as [b|] eqn:Hq.
    + case_decide as Hpq; [subst q; congruence|reflexivity].
    + case_decide as Hpq.
      * subst q. apply lookup_delete_eq.
      * apply lookup_delete_ne. congruence.
Qed.

Lemma remove_Raise p s s' e : remove p s = (s', Raise e) -> s' = s.
Proof.
  unfold remove. destruct (fs_lookup s p); [|by intros [=]].
  by destruct (in_tmp p).
Qed.

Lemma changes_only_remove P p s : P p -> changes_only P s (remove p s).1.
Proof.
  intros Hp. destruct (remove p s) as [s' [[]|e]] eqn:Hr; simpl.
  - intros q Hq. rewrite (fs_lookup_remove _ q _ _ _ Hr).
    rewrite decide_False; [done|]. by intros ->.
  - apply remove_Raise in Hr as ->. apply changes_only_refl.
Qed.

(** Files that are there, each named once, are removed one after the
    other without an exception. *)
Lemma forM_remove_all (l : list string) s :
  NoDup l -> Forall (fun f => is_Some (fs_lookup s f)) l ->
  exists s', forM_ remove l s = (s', Ok tt) /\
    forall q, fs_lookup s' q = if decide (q ∈ l) then None else fs_lookup s q.
Proof.
  revert s. induction l as [|x l IH]; intros s Hnd Hall.
  - exists s. split; [done|]. intros q.
    case_decide as Hq; [by apply elem_of_nil in Hq|done].
  - apply NoDup_cons in Hnd as [Hx Hnd].
    apply Forall_cons in Hall as [[c Hc] Hall].
    change (forM_ remove (x :: l) s)
      with (bind (remove x) (fun _ => forM_ remove l) s).
    destruct (remove x s) as [s1 [[]|e]] eqn:Hr.
    2:{ unfold remove in Hr. rewrite Hc in Hr. by destruct (in_tmp x). }
    destruct (IH s1 Hnd) as (s' & Hrun & Hl).
    { apply Forall_forall. intros f Hf.
      rewrite (fs_lookup_remove _ f _ _ _ Hr).
      rewrite decide_False by (by intros ->).
      by apply (proj1 (Forall_forall _ _) Hall). }
    exists s'. unfold bind. rewrite Hr. split; [done|]. intros q.
    rewrite Hl, (fs_lookup_remove _ q _ _ _ Hr).
    destruct (decide (q ∈ l)) as [Hq|Hq].
    + rewrite decide_True; [done|]. by apply list_elem_of_further.
    + destruct (decide (q = x)) as [->|Hne].
      * rewrite decide_True; [done|]. apply list_elem_of_here.
      * rewrite decide_False; [done|]. intros [?|?]%elem_of_cons; done.
Qed.

End ChangesOnly.

Section MergeOutcome.

Variable md5_hexdigest : string -> string.

Implicit Types (s : fs).

(** When the first loop of the merge has not raised, every input was
    there to be read. *)
Lemma heap_init_exists key order delim files s s' h :
  heap_init key order ((fun f => _yield_rows f delim) <$> files) s = (s', Ok h) ->
  Forall (fun f => is_Some (fs_lookup s f)) files.
Proof.
  revert order h s'. induction files as [|f files IH]; intros order h s';
    [by constructor|].
  rewrite fmap_cons, heap_init_cons. unfold bind at 1.
  unfold _yield_rows at 1, bind at 1, read_text at 1.
  destruct (fs_lookup s f) as [c|] eqn:Hc; [|done]. unfold ret at 1.
  destruct (reader_rows COMMA parse_reset (readlines (universal_newlines c)))
    as [[|value rest] ok].
  - destruct ok; [|done]. intros Hrest. constructor; [by eauto|].
    by eapply IH.
  - unfold bind at 1, lift. destruct (key value) as [k|e]; [|done].
    unfold bind at 1.
    pose proof (heap_init_state key (S order) delim files s) as Hst.
    destruct (heap_init key (S order) _ s) as [s2 [h2|e]] eqn:Hrest;
      simpl in Hst; subst; [|done].
    intros _. constructor; [by eauto|]. by eapply IH.
Qed.

(** X6. A merge changes no path but its output and its inputs, whether
    it ends or raises: what any other path holds, in the workspace or
    outside, it holds afterwards. *)
Theorem merge_files_frame files sort_keys header delimiter s q :
  q <> merge_name md5_hexdigest files -> q ∉ files ->
  fs_lookup (merge_files md5_hexdigest files sort_keys header delimiter s).1 q
  = fs_lookup s q.
Proof.
  intros Hout Hin.
  set (P := fun p : string => p = merge_name md5_hexdigest files \/ p ∈ files).
  assert (changes_only P s
            (merge_files md5_hexdigest files sort_keys header delimiter s).1)
    as Hch; [|apply Hch; by intros [?|?]].
  assert (P (merge_name md5_hexdigest files)) as HP by (by left).
  clear Hout Hin. unfold merge_files.
  apply (step_bind _ (changes_only_trans P)); [by apply changes_only_open_w|].
  intros _ s1. apply (step_bind _ (changes_only_trans P)).
  { destruct (header_given header);
      [by apply changes_only_write|apply changes_only_refl]. }
  intros _ s2. apply (step_bind _ (changes_only_trans P)).
  { rewrite heap_init_state. apply changes_only_refl. }
  intros h s3.
  destruct (heap_drain (S (heap_size h)) (sort_func sort_keys) h) as [rows err].
  apply (step_bind _ (changes_only_trans P)).
  { apply (step_forM _ (changes_only_refl P) (changes_only_trans P) _
             (fun _ => True)); [|by apply Forall_true].
    intros r s' _. by apply changes_only_write. }
  intros _ s4. apply (step_bind _ (changes_only_trans P)).
  { destruct err; apply changes_only_refl. }
  intros _ s5.
  apply (step_forM _ (changes_only_refl P) (changes_only_trans P) _
           (fun f => f ∈ files)).
  - intros f s' Hf. apply changes_only_remove. by right.
  - by apply Forall_forall.
Qed.

(** X7. The inputs of a merge are removed at the end and only then. A
    merge over inputs each named once that raises, whatever it raises and
    wherever, has removed nothing: every path but the output holds what it
    held. A merge that ends has removed every input, and its output is
    there. *)
Theorem merge_files_inputs_after files sort_keys header delimiter s s' r :
  NoDup files ->
  merge_files md5_hexdigest files sort_keys header delimiter s = (s', r) ->
  match r with
  | Raise _ =>
      forall q, q <> merge_name md5_hexdigest files ->
                fs_lookup s' q = fs_lookup s q
  | Ok _ =>
      (forall f, f ∈ files -> fs_lookup s' f = None) /\
      (merge_name md5_hexdigest files ∉ files ->
       is_Some (fs_lookup s' (merge_name md5_hexdigest files)))
  end.
Proof.
  intros Hnd Hrun. unfold merge_files in Hrun.
  set (out := merge_name md5_hexdigest files) in *.
  unfold bind at 1 in Hrun.
  destruct (open_w out s) as [s1 [[]|e]] eqn:Hopen.
  2:{ injection Hrun as <- <-. by apply open_w_Raise in Hopen as ->. }
  pose proof (fs_lookup_open_w _ out _ _ _ Hopen) as Hout1.
  rewrite decide_True in Hout1 by done.
  assert (forall q, q <> out -> fs_lookup s1 q = fs_lookup s q) as Hfr1.
  { intros q Hq. rewrite (fs_lookup_open_w _ q _ _ _ Hopen).
    by rewrite decide_False. }
  unfold bind at 1 in Hrun.
  assert (exists s2 c2,
    match header_given header with
    | Some h => write out (writerow delimiter h)
    | None => ret tt
    end s1 = (s2, Ok tt) /\
    fs_lookup s2 out = Some c2 /\
    forall q, q <> out -> fs_lookup s2 q = fs_lookup s1 q)
    as (s2 & c2 & Hhdr & Hout2 & Hfr2).
  { destruct (header_given header) as [h|].
    - destruct (write_exists out (writerow delimiter h) s1 "" Hout1) as [s2 Hw].
      exists s2. eexists. split; [done|]. split.
      + rewrite (fs_lookup_write _ out _ _ _ _ Hw). by rewrite decide_True.
      + intros q Hq. rewrite (fs_lookup_write _ q _ _ _ _ Hw).
        by rewrite decide_False.
    - exists s1, "". by repeat split. }
  rewrite Hhdr in Hrun. unfold bind at 1 in Hrun.
  pose proof (heap_init_state (sort_func sort_keys) 0 delimiter files s2) as Hst.
  destruct (heap_init (sort_func sort_keys) 0 _ s2) as [s3 [h|e]] eqn:Hinit;
    simpl in Hst; subst s3.
  2:{ injection Hrun as <- <-. intros q Hq. by rewrite Hfr2, Hfr1. }
  pose proof (heap_init_exists _ _ _ _ _ _ _ Hinit) as Hex.
  destruct (heap_drain (S (heap_size h)) (sort_func sort_keys) h) as [rows err].
  unfold bind at 1 in Hrun.
  destruct (forM_write (writerow delimiter) out rows s2 c2 Hout2)
    as (s4 & Hw & Hout4 & Hfr4).
  rewrite Hw in Hrun. unfold bind at 1 in Hrun.
  destruct err as [e|].
  { unfold raise in Hrun. injection Hrun as <- <-. intros q Hq.
    by rewrite Hfr4, Hfr2, Hfr1. }
  unfold ret at 1 in Hrun.
  destruct (forM_remove_all files s4 Hnd) as (s5 & Hrm & Hl5).
  { apply Forall_forall. intros f Hf.
    destruct (decide (f = out)) as [->|Hne]; [by rewrite Hout4|].
    rewrite Hfr4 by done.
    by apply (proj1 (Forall_forall _ _) Hex). }
  rewrite Hrm in Hrun. injection Hrun as <- <-. split.
  - intros f Hf. rewrite Hl5. by rewrite decide_True.
  - intros Hn. rewrite Hl5, decide_False by done. by rewrite Hout4.
Qed.

End MergeOutcome.

Section MergeComplete.

Variable md5_hexdigest : string -> string.
Variable sort_keys : list Z.

Let key := sort_func sort_keys.




End MergeComplete.

Lemma merge_files_frame_witness :
  fs_lookup
    (merge_files constant_digest (tmp_paths ["a.csv"; "b.csv"]) [0]
       (Some ["k"; "v"]) COMMA mixed_fs).1 "./.tmp/c.csv"
  = Some ("1,u" +:+ NL +:+ "4,v" +:+ NL) /\
  fs_lookup
    (merge_files constant_digest (tmp_paths ["a.csv"; "b.csv"]) [0]
       (Some ["k"; "v"]) COMMA mixed_fs).1 "keep.csv"
  = Some "k".
Proof.
  split.
  - rewrite (merge_files_frame constant_digest (tmp_paths ["a.csv"; "b.csv"])
               [0] (Some ["k"; "v"]) COMMA mixed_fs "./.tmp/c.csv").
    + vm_compute. reflexivity.
    + intros H. vm_compute in H. discriminate H.
    + not_among.
  - rewrite (merge_files_frame constant_digest (tmp_paths ["a.csv"; "b.csv"])
               [0] (Some ["k"; "v"]) COMMA mixed_fs "keep.csv").
    + vm_compute. reflexivity.
    + intros H. vm_compute in H. discriminate H.
    + not_among.
Defined.

Lemma merge_files_inputs_after_witness :
  (forall q, q <> merge_name constant_digest (tmp_paths ["a.csv"; "b.csv"]) ->
     fs_lookup
       (merge_files constant_digest (tmp_paths ["a.csv"; "b.csv"]) [5] None
          COMMA mixed_fs).1 q
     = fs_lookup mixed_fs q) /\
  (forall f, f ∈ tmp_paths ["a.csv"; "b.csv"] ->
     fs_lookup
       (merge_files constant_digest (tmp_paths ["a.csv"; "b.csv"]) [0] None
          COMMA mixed_fs).1 f
     = None).
Proof.
  split.
  - refine (merge_files_inputs_after constant_digest
              (tmp_paths ["a.csv"; "b.csv"]) [5] None COMMA mixed_fs _
              (Raise IndexError) _ _).
    + distinct_names.
    + vm_compute. reflexivity.
  - refine (proj1 (merge_files_inputs_after constant_digest
                     (tmp_paths ["a.csv"; "b.csv"]) [0] None COMMA mixed_fs _
                     (Ok tt) _ _)).
    + distinct_names.
    + apply surjective_pairing.
Defined.



(* ===================================================================== *)
(** ** When the chunk sorter fails                                        *)
(* ===================================================================== *)

Section SortFileFailure.

Implicit Types (s : fs).


End SortFileFailure.


(* ===================================================================== *)
(** ** The exceptions of a run                                            *)
(* ===================================================================== *)

Section RunFailures.

Variable md5_hexdigest : string -> string.
Variable listdir_order : list string -> list string.
Hypothesis listdir_order_perm : forall l, listdir_order l ≡ₚ l.

Implicit Types (s : fs) (d : gmap string string).



Lemma universal_newlines_nil c : universal_newlines c = "" -> c = "".
Proof.
  destruct c as [|a c]; [done|]. simpl.
  destruct (Ascii.eqb a CR); [|done].
  destruct c as [|b c]; [done|]. by destruct (Ascii.eqb b LF).
Qed.

Lemma readlines_nil text : readlines text = [] -> text = "".
Proof. intros H. by rewrite <- (readlines_concat text), H. Qed.

(** The partitioner where the workspace does not exist yet and the source
    can be read: it ends, and the header it returns is the first line of
    the source when one is asked for. *)
Lemma create_temp_files_Ok file_loc max_size header s content :
  tmp s = None -> fs_lookup s file_loc = Some content ->
  exists s' temp_files,
    create_temp_files file_loc max_size header s
    = (s', Ok (temp_files,
               if header then head (readlines (universal_newlines content))
               else None)).
Proof.
  intros Htmp Hfile.
  destruct (create_temp_files_start file_loc s content Htmp Hfile) as [Hmk Hrd].
  set (s0 := mkfs (files s) (Some ∅)) in *.
  pose proof (readlines_nonempty (universal_newlines content)) as Hne.
  assert (forall hdr, header && negb (truthy hdr) = false ->
            split_inv max_size header [] [] (mksplit "" 0 [] None hdr) s0)
    as Hinit.
  { intros hdr Hhdr. constructor; simpl; try done. by left. }
  unfold create_temp_files. unfold bind at 1. rewrite Hmk.
  unfold bind at 1. rewrite Hrd.
  destruct (readlines (universal_newlines content)) as [|h rest].
  { exists s0, []. by destruct header. }
  destruct header.
  - inversion Hne; subst.
    destruct (split_finish max_size true rest (mksplit "" 0 [] None (Some h)) s0)
      as (chunks & s' & Hrun & _); [done|apply Hinit; by destruct h|].
    exists s'. eexists. exact Hrun.
  - destruct (split_finish max_size false (h :: rest)
                (mksplit "" 0 [] None None) s0)
      as (chunks & s' & Hrun & _); [done|by apply Hinit|].
    exists s'. eexists. exact Hrun.
Qed.


(** Lines 177-191 after the partitioner has ended. *)
Lemma partition_and_sort_outcome file_loc sort_keys n_proc max_size header
  delimiter s s1 temp_files header_cols :
  create_temp_files file_loc max_size header s
  = (s1, Ok (temp_files, header_cols)) ->
  partition_and_sort file_loc sort_keys n_proc max_size header delimiter s
  = (s1, match header_cols with
         | None => Raise AttributeError
         | Some h =>
             if n_proc <? 1 then Raise ValueError
             else Ok (split delimiter (strip h))
         end).
Proof.
  intros Hctf. unfold partition_and_sort. unfold bind at 1. rewrite Hctf.
  simpl. destruct header_cols as [h|]; [|done].
  rewrite bind_ret_l. unfold bind at 1, Pool.
  destruct (n_proc <? 1); [done|]. unfold ret at 1.
  unfold bind. by rewrite sort_dispatch_noop.
Qed.






(** X17. A number of processes below one is found out only when the
    pool is made, after the partitioner has run: on a source that can be
    read and is not empty the run raises ValueError and leaves the
    workspace with every chunk in it. *)
Theorem external_sort_bad_n_proc fuel file_loc sort_keys n_proc n_way max_size
  delimiter overwrite s content :
  tmp s = None -> fs_lookup s file_loc = Some content -> content <> "" ->
  n_proc < 1 ->
  external_sort md5_hexdigest listdir_order fuel file_loc sort_keys n_proc
    n_way max_size true delimiter overwrite s
  = Some ((create_temp_files file_loc max_size true s).1, Raise ValueError) /\
  is_Some (tmp (create_temp_files file_loc max_size true s).1).
Proof.
  intros Htmp Hfile Hne Hproc.
  split; [|apply create_temp_files_workspace].
  destruct (create_temp_files_Ok file_loc max_size true s content Htmp Hfile)
    as (s1 & temp_files & Hctf).
  unfold external_sort.
  rewrite (partition_and_sort_outcome _ _ _ _ _ _ _ _ _ _ Hctf), Hctf.
  destruct (readlines (universal_newlines content)) as [|h rest] eqn:Hl.
  { by apply readlines_nil, universal_newlines_nil in Hl. }
  simpl. by assert ((n_proc <? 1) = true) as -> by (apply Z.ltb_lt; lia).
Qed.

End RunFailures.


Lemma external_sort_bad_n_proc_witness :
  external_sort constant_digest listing_order 1 "in.csv" [0] 0 2 100 true
    COMMA false spec_fs
  = Some ((create_temp_files "in.csv" 100 true spec_fs).1, Raise ValueError) /\
  is_Some (tmp (create_temp_files "in.csv" 100 true spec_fs).1).
Proof.
  apply (external_sort_bad_n_proc constant_digest listing_order 1 "in.csv" [0]
           0 2 100 COMMA false spec_fs spec_input).
  - reflexivity.
  - vm_compute. reflexivity.
  - discriminate.
  - lia.
Defined.

(* ===================================================================== *)
(** ** A source below the threshold                                       *)
(* ===================================================================== *)

Section SingleChunk.

Variable md5_hexdigest : string -> string.
Variable listdir_order : list string -> list string.
Hypothesis listdir_order_perm : forall l, listdir_order l ≡ₚ l.

Implicit Types (s : fs).






End SingleChunk.


(* ===================================================================== *)
(** ** A source cut into several chunks                                   *)
(* ===================================================================== *)

Section SourceOutside.

Implicit Types (s : fs).


End SourceOutside.

(* ===================================================================== *)
(** ** Reading back what the writer wrote                                 *)
(* ===================================================================== *)

Section RoundTrip.

Variable delim : Ascii.ascii.
Hypothesis delim_plain : plain_delimiter delim.

Lemma needs_quote_cons c f :
  needs_quote delim (String c f) = false ->
  Ascii.eqb c delim = false /\ Ascii.eqb c QUOTE = false /\
  is_newline c = false /\ needs_quote delim f = false.
Proof.
  simpl. intros H. apply orb_false_iff in H as [H H4].
  apply orb_false_iff in H as [H H3]. apply orb_false_iff in H as [H1 H2].
  done.
Qed.

Lemma is_newline_false c :
  is_newline c = false -> Ascii.eqb c LF = false /\ Ascii.eqb c CR = false.
Proof. unfold is_newline. apply orb_false_iff. Qed.

Lemma writerow_plain r :
  plain_row delim r -> writerow delim r = row_body delim r +:+ lineterminator.
Proof.
  intros Hr. unfold writerow, row_body.
  assert (write_field delim <$> r = r) as ->.
  { induction Hr as [|f r Hf _ IH]; [done|].
    rewrite fmap_cons, IH. unfold write_field. by rewrite Hf. }
  by destruct r as [|[|] [|]].
Qed.

(** A plain row has no line ending in its line. *)
Lemma has_char_app c a b : has_char c (a +:+ b) = has_char c a || has_char c b.
Proof.
  induction a as [|x a IH]; [done|].
  rewrite string_app_cons. simpl. by rewrite IH, orb_assoc.
Qed.

Lemma plain_field_has_char c f :
  is_newline c = true -> needs_quote delim f = false -> has_char c f = false.
Proof.
  intros Hc. induction f as [|x f IH]; [done|].
  intros (_ & _ & Hx & Hf)%needs_quote_cons. simpl.
  rewrite (IH Hf), orb_false_r.
  destruct (Ascii.eqb_spec x c) as [->|]; [congruence|done].
Qed.

Lemma join_has_char c r :
  is_newline c = true -> plain_row delim r ->
  has_char c (join (String delim "") r) = false.
Proof.
  intros Hc Hr. induction Hr as [|f r Hf Hr IH]; [done|].
  destruct r as [|g r]; simpl.
  - by apply plain_field_has_char.
  - rewrite !has_char_app. rewrite (plain_field_has_char _ _ Hc Hf). simpl.
    simpl in IH. rewrite IH, orb_false_r.
    destruct delim_plain as [Hd _].
    destruct (Ascii.eqb_spec delim c) as [->|]; [congruence|done].
Qed.

Lemma row_body_has_char c r :
  is_newline c = true -> plain_row delim r -> has_char c (row_body delim r) = false.
Proof.
  intros Hc Hr. unfold row_body.
  destruct r as [|[|] [|]]; try by apply join_has_char.
  change (Ascii.eqb QUOTE c || (Ascii.eqb QUOTE c || false) = false).
  destruct (Ascii.eqb_spec QUOTE c) as [<-|]; [by vm_compute in Hc|done].
Qed.

Lemma universal_newlines_plain a b :
  has_char CR a = false ->
  universal_newlines (a +:+ lineterminator +:+ b)
  = a +:+ String LF (universal_newlines b).
Proof.
  induction a as [|x a IH]; [done|].
  simpl. intros [Hx Ha]%orb_false_iff. rewrite !string_app_cons. simpl.
  rewrite Hx. by rewrite IH.
Qed.

Lemma readlines_plain a b :
  has_char LF a = false ->
  readlines (a +:+ String LF b) = (a +:+ String LF "") :: readlines b.
Proof.
  induction a as [|x a IH]; [done|].
  simpl. intros [Hx Ha]%orb_false_iff. rewrite !string_app_cons. simpl.
  rewrite Hx. by rewrite IH.
Qed.

Lemma written_lines rows :
  Forall (plain_row delim) rows ->
  readlines (universal_newlines (concat_lines (writerow delim <$> rows)))
  = (fun r => row_body delim r +:+ String LF "") <$> rows.
Proof.
  induction 1 as [|r rows Hr _ IH]; [done|].
  rewrite !fmap_cons.
  change (concat_lines (writerow delim r :: (writerow delim <$> rows)))
    with (writerow delim r +:+ concat_lines (writerow delim <$> rows)).
  rewrite (writerow_plain _ Hr), string_app_assoc.
  rewrite universal_newlines_plain by (by apply row_body_has_char).
  rewrite readlines_plain by (by apply row_body_has_char).
  by rewrite IH.
Qed.

(** The reader inside a plain field. *)
Lemma parse_in_field f acc fields rest :
  needs_quote delim f = false ->
  parse_line delim (mkreader IN_FIELD acc fields) (f +:+ rest)
  = parse_line delim (mkreader IN_FIELD (acc +:+ f) fields) rest.
Proof.
  revert acc. induction f as [|c f IH]; intros acc Hf.
  - by rewrite string_app_nil_r.
  - apply needs_quote_cons in Hf as (Hd & Hq & Hn & Hf).
    rewrite string_app_cons. cbn [parse_line]. unfold parse_process_char.
    cbn [r_state]. rewrite Hn, Hd. unfold parse_add_char.
    cbn [r_field r_fields]. rewrite (IH _ Hf). by rewrite string_app_assoc.
Qed.

(** A plain field and the character that ends it, from the start of a
    field or of a record. *)
Lemma parse_field st f t fields rest :
  st = START_FIELD \/ (st = START_RECORD /\ (f <> "" \/ t = delim)) ->
  needs_quote delim f = false ->
  t = delim \/ t = LF ->
  parse_line delim (mkreader st "" fields) (f +:+ String t rest)
  = parse_line delim
      (mkreader (if is_newline t then EAT_CRNL else START_FIELD) ""
         (fields ++ [f])%list) rest.
Proof.
  intros Hst Hf Ht. destruct delim_plain as [Hdn Hdq].
  assert (is_newline t = false -> Ascii.eqb t QUOTE = false /\
                                  Ascii.eqb t delim = true) as Hdelim.
  { intros Hn. destruct Ht as [->| ->]; [|done].
    split; [done|apply Ascii.eqb_refl]. }
  destruct f as [|c f].
  - change ("" +:+ String t rest) with (String t rest). cbn [parse_line].
    assert (parse_process_char delim (mkreader st "" fields) (Some t)
            = Some (mkreader (if is_newline t then EAT_CRNL else START_FIELD)
                      "" (fields ++ [""])%list)) as ->; [|done].
    unfold parse_process_char, start_field. cbn [r_state].
    destruct Hst as [->|[-> [?| ->]]]; [|done|].
    + destruct (is_newline t) eqn:Hn; [done|].
      destruct (Hdelim eq_refl) as [-> ->]. done.
    + rewrite Hdn, Hdq, Ascii.eqb_refl. done.
  - apply needs_quote_cons in Hf as (Hd & Hq & Hn & Hf).
    rewrite string_app_cons. cbn [parse_line].
    assert (parse_process_char delim (mkreader st "" fields) (Some c)
            = Some (mkreader IN_FIELD (String c "") fields)) as ->.
    { unfold parse_process_char, start_field. cbn [r_state].
      destruct Hst as [->|[-> _]]; by rewrite Hn, Hq, Hd. }
    rewrite (parse_in_field _ _ _ _ Hf).
    change (String c "" +:+ f) with (String c f). cbn [parse_line].
    unfold parse_process_char. cbn [r_state].
    destruct (is_newline t) eqn:Hnt; [done|].
    by destruct (Hdelim eq_refl) as [_ ->].
Qed.

(** The fields of a plain row, joined, and the line feed. *)
Lemma parse_fields r st fields :
  plain_row delim r -> r <> [] ->
  st = START_FIELD \/ (st = START_RECORD /\ r <> [""]) ->
  parse_line delim (mkreader st "" fields)
    (join (String delim "") r +:+ String LF "")
  = Some (mkreader START_RECORD "" (fields ++ r)%list).
Proof.
  intros Hr. revert st fields.
  induction Hr as [|f r Hf Hr IH]; intros st fields Hne Hst; [done|].
  destruct r as [|g r].
  - change (join (String delim "") [f]) with f.
    rewrite (parse_field st f LF fields "" ); [done| |done|by right].
    destruct Hst as [->|[-> Hq]]; [by left|right]. split; [done|].
    left. by intros ->.
  - change (join (String delim "") (f :: g :: r))
      with (f +:+ String delim "" +:+ join (String delim "") (g :: r)).
    rewrite !string_app_assoc.
    change (String delim "" +:+ (join (String delim "") (g :: r) +:+ String LF ""))
      with (String delim (join (String delim "") (g :: r) +:+ String LF "")).
    rewrite (parse_field st f delim fields); [| |done|by left].
    + destruct delim_plain as [-> _].
      rewrite (IH START_FIELD); [|done|by left].
      by rewrite <- app_assoc.
    + destruct Hst as [->|[-> _]]; [by left|right]. split; [done|by right].
Qed.

(** The line of a plain row gives the row back. *)
Lemma parse_row_line r :
  plain_row delim r ->
  parse_line delim parse_reset (row_body delim r +:+ String LF "")
  = Some (mkreader START_RECORD "" r).
Proof.
  intros Hr. destruct delim_plain as [Hdn Hdq].
  destruct (decide (r = [])) as [->|Hne]; [done|].
  destruct (decide (r = [""])) as [->|Hq].
  - assert (Ascii.eqb LF delim = false) as Hld.
    { rewrite Ascii.eqb_sym. by apply is_newline_false in Hdn as [? ?]. }
    change (row_body delim [""] +:+ String LF "")
      with (String QUOTE (String QUOTE (String LF ""))).
    cbn [parse_line].
    change (parse_process_char delim parse_reset (Some QUOTE))
      with (Some (mkreader IN_QUOTED_FIELD "" [])).
    cbv beta iota.
    change (parse_process_char delim (mkreader IN_QUOTED_FIELD "" [])
              (Some QUOTE))
      with (Some (mkreader QUOTE_IN_QUOTED_FIELD "" [])).
    cbv beta iota.
    assert (parse_process_char delim (mkreader QUOTE_IN_QUOTED_FIELD "" [])
              (Some LF) = Some (mkreader EAT_CRNL "" [""])) as ->; [|done].
    unfold parse_process_char. cbn [r_state].
    change (Ascii.eqb LF QUOTE) with false. cbv iota. by rewrite Hld.
  - replace (row_body delim r) with (join (String delim "") r)
      by (by destruct r as [|[|] [|]]).
    unfold parse_reset.
    by rewrite (parse_fields r START_RECORD []) by (done || by right).
Qed.

Lemma reader_rows_written rows :
  Forall (plain_row delim) rows ->
  reader_rows delim parse_reset
    ((fun r => row_body delim r +:+ String LF "") <$> rows)
  = (rows, true).
Proof.
  induction 1 as [|r rows Hr _ IH]; [done|].
  rewrite fmap_cons. cbn [reader_rows].
  rewrite (parse_row_line _ Hr). cbn [r_state r_fields]. by rewrite IH.
Qed.

(** What the writer writes for plain rows, the reader reads back. *)
Lemma csv_round_trip rows :
  Forall (plain_row delim) rows ->
  csv_reader delim
    (universal_newlines (concat_lines (writerow delim <$> rows)))
  = Some rows.
Proof.
  intros Hrows. unfold csv_reader.
  by rewrite (written_lines _ Hrows), (reader_rows_written _ Hrows).
Qed.

End RoundTrip.

Section SortTwice.

Implicit Types (s : fs).

(** Sorting what is in order changes nothing. *)
Lemma stable_sort_sorted_id {V} (l : list (list string * V)) :
  Sorted pair_le l -> stable_sort l = l.
Proof.
  induction 1 as [|x l Hs IH Hhd]; [done|].
  simpl. rewrite IH. destruct Hhd as [|y l' Hxy]; [done|].
  simpl. unfold pair_le, key_le in Hxy. apply negb_true_iff in Hxy.
  by rewrite Hxy.
Qed.

Lemma mapR_fmap {A B} (f : A -> result B) (ps : list (B * A)) :
  Forall (fun p => f p.2 = Ok p.1) ps -> mapR f ps.*2 = Ok ps.*1.
Proof.
  induction 1 as [|p ps Hp _ IH]; [done|].
  rewrite !fmap_cons. simpl. by rewrite Hp, IH.
Qed.

Lemma list_sort_idem sort_keys (rows sorted : list row) :
  list_sort (sort_func sort_keys) rows = Ok sorted ->
  list_sort (sort_func sort_keys) sorted = Ok sorted.
Proof.
  unfold list_sort.
  destruct (mapR (sort_func sort_keys) rows) as [ks|] eqn:Hks; [|done].
  intros [= <-]. destruct (mapR_Ok_zip _ _ _ Hks) as [Hall _].
  set (ps := stable_sort (zip ks rows)).
  assert (Forall (fun p => sort_func sort_keys p.2 = Ok p.1) ps) as Hall'.
  { apply Forall_forall. intros p Hp. unfold ps in Hp.
    rewrite stable_sort_perm in Hp. revert p Hp. by apply Forall_forall. }
  rewrite (mapR_fmap _ _ Hall'), zip_fst_snd.
  by rewrite (stable_sort_sorted_id ps (stable_sort_sorted _)).
Qed.

(** X10. Sorting a chunk again changes nothing. For a delimiter that is
    neither the quote nor a line ending and a file whose fields hold no
    delimiter, quote or line ending, after one [sort_file] that ended a
    second one ends too and leaves every file as the first left it: what
    the writer wrote is read back as the same rows, and rows in order
    stay where they are. *)
Theorem sort_file_idempotent file_loc sort_keys delimiter s content rows s1 :
  plain_delimiter delimiter ->
  fs_lookup s file_loc = Some content ->
  csv_reader delimiter (universal_newlines content) = Some rows ->
  Forall (plain_row delimiter) rows ->
  sort_file file_loc sort_keys delimiter s = (s1, Ok tt) ->
  exists s2,
    sort_file file_loc sort_keys delimiter s1 = (s2, Ok tt) /\
    forall q, fs_lookup s2 q = fs_lookup s1 q.
Proof.
  intros Hdelim Hfile Hparse Hplain Hrun.
  unfold sort_file in Hrun. unfold bind at 1 in Hrun.
  unfold read_text in Hrun. rewrite Hfile in Hrun.
  unfold bind at 1 in Hrun. rewrite Hparse in Hrun.
  unfold ret at 1 in Hrun. unfold bind at 1 in Hrun. unfold lift in Hrun.
  destruct (list_sort (sort_func sort_keys) rows) as [sorted|e] eqn:Hsort;
    [|done].
  assert (sorted ≡ₚ rows) as Hperm.
  { pose proof Hsort as Hsort'. unfold list_sort in Hsort'.
    destruct (mapR (sort_func sort_keys) rows) as [ks|] eqn:Hks; [|done].
    destruct (list_sort_spec _ _ _ Hks) as (sorted' & Hs' & Hp & _).
    congruence. }
  destruct (open_w_exists _ _ _ Hfile) as [t Hopen].
  pose proof (fs_lookup_open_w _ file_loc _ _ _ Hopen) as Hempty.
  rewrite decide_True in Hempty by done.
  destruct (forM_write (writerow delimiter) file_loc sorted t "" Hempty)
    as (t' & Hwrite & Hnew & _).
  unfold bind in Hrun. rewrite Hopen, Hwrite in Hrun. injection Hrun as <-.
  change ("" +:+ concat_lines (writerow delimiter <$> sorted))
    with (concat_lines (writerow delimiter <$> sorted)) in Hnew.
  destruct (open_w_exists _ _ _ Hnew) as [u Hopen2].
  pose proof (fs_lookup_open_w _ file_loc _ _ _ Hopen2) as Hempty2.
  rewrite decide_True in Hempty2 by done.
  destruct (forM_write (writerow delimiter) file_loc sorted u "" Hempty2)
    as (s2 & Hwrite2 & Hnew2 & Hframe2).
  exists s2. split.
  - unfold sort_file, bind, read_text, lift, ret. rewrite Hnew.
    rewrite (csv_round_trip delimiter Hdelim sorted) by (by rewrite Hperm).
    by rewrite (list_sort_idem _ _ _ Hsort), Hopen2.
  - intros q. destruct (decide (q = file_loc)) as [->|Hq].
    + by rewrite Hnew2, Hnew.
    + rewrite Hframe2 by done. rewrite (fs_lookup_open_w _ q _ _ _ Hopen2).
      by rewrite decide_False.
Qed.

End SortTwice.

Lemma sort_file_idempotent_witness :
  exists s2,
    sort_file "./.tmp/split0.csv" [0] COMMA
      (sort_file "./.tmp/split0.csv" [0] COMMA chunk_fs).1 = (s2, Ok tt) /\
    forall q, fs_lookup s2 q
              = fs_lookup (sort_file "./.tmp/split0.csv" [0] COMMA chunk_fs).1 q.
Proof.
  apply (sort_file_idempotent "./.tmp/split0.csv" [0] COMMA chunk_fs
           chunk_text chunk_rows).
  - split; reflexivity.
  - vm_compute. reflexivity.
  - vm_compute. reflexivity.
  - repeat constructor.
  - apply surjective_pairing.
Defined.

(* ===================================================================== *)
(** ** A threshold of zero                                                *)
(* ===================================================================== *)

Section LinePerChunk.

Implicit Types (s : fs).

(** The partitioner where the workspace does not exist yet and the source
    can be read: the chunks it writes. *)
Lemma create_temp_files_run file_loc max_size header s content :
  tmp s = None -> fs_lookup s file_loc = Some content ->
  let lines := readlines (universal_newlines content) in
  exists chunks s',
    create_temp_files file_loc max_size header s
    = (s', Ok (split_name <$> seq 0 (length chunks),
               if header then head lines else None)) /\
    concat chunks = data_lines header lines /\
    forall i c, chunks !! i = Some c ->
      good_chunk max_size c /\
      fs_lookup s' (split_name i) = Some (concat_lines c).
Proof.
  intros Htmp Hfile lines.
  destruct (create_temp_files_start file_loc s content Htmp Hfile) as [Hmk Hrd].
  set (s0 := mkfs (files s) (Some ∅)) in *.
  pose proof (readlines_nonempty (universal_newlines content)) as Hne.
  fold lines in Hne.
  assert (forall hdr, header && negb (truthy hdr) = false ->
            split_inv max_size header [] [] (mksplit "" 0 [] None hdr) s0)
    as Hinit.
  { intros hdr Hhdr. constructor; simpl; try done. by left. }
  unfold create_temp_files. unfold bind at 1. rewrite Hmk.
  unfold bind at 1. rewrite Hrd. fold lines. clearbody lines.
  destruct lines as [|h rest].
  { exists [], s0. by destruct header. }
  destruct header.
  - inversion Hne; subst.
    by apply (split_finish max_size true rest (mksplit "" 0 [] None (Some h)) s0);
      [|apply Hinit; destruct h].
  - by apply (split_finish max_size false (h :: rest)
                (mksplit "" 0 [] None None) s0); [|apply Hinit].
Qed.

(** A threshold of zero or less is reached by every text. *)
Lemma reached_nonpositive max_size txt :
  (max_size <= 0)%Q -> reached max_size txt = true.
Proof.
  intros Hle. unfold reached. apply Qle_bool_iff.
  apply Qle_trans with (0 * 1048576)%Q.
  - apply Qmult_le_compat_r; [done|discriminate].
  - change (0 * 1048576)%Q with (inject_Z 0). rewrite <- Zle_Qle. lia.
Qed.

Lemma concat_singletons {A} (chunks : list (list A)) :
  Forall (fun c => exists l, c = [l]) chunks ->
  chunks = (fun l => [l]) <$> concat chunks.
Proof.
  induction 1 as [|c chunks [l ->] _ IH]; [done|].
  change (concat ([l] :: chunks)) with (l :: concat chunks).
  rewrite fmap_cons. by f_equal.
Qed.

(** X11. With [max_size] zero or negative every line closes its chunk:
    the partitioner writes one file for each line of the source after the
    header, [split<i>.csv] holding line [i] and nothing else. *)
Theorem create_temp_files_line_per_chunk file_loc max_size header s content :
  (max_size <= 0)%Q ->
  tmp s = None -> fs_lookup s file_loc = Some content ->
  let lines := readlines (universal_newlines content) in
  exists s',
    create_temp_files file_loc max_size header s
    = (s', Ok (split_name <$> seq 0 (length (data_lines header lines)),
               if header then head lines else None)) /\
    forall i row, data_lines header lines !! i = Some row ->
      fs_lookup s' (split_name i) = Some row.
Proof.
  intros Hmax Htmp Hfile lines.
  destruct (create_temp_files_run file_loc max_size header s content Htmp Hfile)
    as (chunks & s' & Hrun & Hcat & Hchunks). fold lines in Hrun, Hcat.
  assert (chunks = (fun l => [l]) <$> data_lines header lines) as Heq.
  { rewrite <- Hcat. apply concat_singletons, Forall_forall. intros c Hc.
    apply list_elem_of_lookup in Hc as [i Hi].
    destruct (Hchunks i c Hi) as [(pre & last & -> & _ & [->|Hbelow]) _].
    - by exists last.
    - by rewrite (reached_nonpositive _ _ Hmax) in Hbelow. }
  exists s'. split.
  - rewrite Hrun. by rewrite Heq, length_fmap.
  - intros i row Hi.
    destruct (Hchunks i [row]) as [_ Hlook].
    { by rewrite Heq, list_lookup_fmap, Hi. }
    rewrite Hlook. simpl. by rewrite string_app_nil_r.
Qed.

End LinePerChunk.

Lemma create_temp_files_line_per_chunk_witness :
  exists s',
    create_temp_files "in.csv" 0 true spec_fs
    = (s', Ok ([split_name 0; split_name 1; split_name 2],
               Some ("a,b" +:+ NL))) /\
    fs_lookup s' (split_name 1) = Some ("1,y" +:+ NL).
Proof.
  destruct (create_temp_files_line_per_chunk "in.csv" 0 true spec_fs
              spec_input) as (s' & Hrun & Hlines).
  - discriminate.
  - reflexivity.
  - vm_compute. reflexivity.
  - exists s'. split; [exact Hrun|]. by apply (Hlines 1%nat).
Defined.

(* ===================================================================== *)
(** ** The merge is stable                                                *)
(* ===================================================================== *)

Section Stable.

Variable sort_keys : list Z.
Variable k : list string.

Let key := sort_func sort_keys.











End Stable.

Section StableMerge.

Variable md5_hexdigest : string -> string.
Variable sort_keys : list Z.



End StableMerge.


(* ===================================================================== *)
(** ** One merge of all the chunks                                        *)
(* ===================================================================== *)

Section Listed.

Implicit Types (s : fs).






End Listed.

Section OneRound.

Variable md5_hexdigest : string -> string.
Variable listdir_order : list string -> list string.
Hypothesis listdir_order_perm : forall l, listdir_order l ≡ₚ l.

Implicit Types (d : gmap string string) (s : fs).








End OneRound.

